(** * Overlay tracker of fake-vac: window locator and tick logic

    A shallow embedding of the Win32 / Qt glue in [src/main.py]:
    - [find_window_by_title_exact] (the window locator),
    - [get_window_rect] and [is_window_covered_or_not_foreground],
    - [OverlayWindow._tick] (visibility toggle and position follow),
    - [main] (start-up lookup).

    Conventions.
    - A Python [str] is a list of UTF-16 code units ([Z]); the titles the
      program deals with come out of a [wchar] buffer.
    - A window handle is a pointer-sized integer.  On the Python side a
      [c_void_p] value is [None] for NULL and an [int] otherwise, which we
      write [option Z].
    - A foreign call either returns or raises a Python exception
      ([outcome]); Python code runs in the monad [M], which threads the
      widget and carries a raised exception.  *)

From Stdlib Require Import ZArith List Bool String Ascii Lia.
Import ListNotations.
Local Open Scope Z_scope.

(** ** Strings *)

Definition wchar := Z.
Definition wstr := list wchar.

(** ASCII literals as code units (used for the titles of the examples). *)
Fixpoint wstr_of_string (s : string) : wstr :=
  match s with
  | EmptyString => []
  | String c s' => Z.of_nat (nat_of_ascii c) :: wstr_of_string s'
  end.

Definition wstr_eq_dec : forall a b : wstr, {a = b} + {a <> b} :=
  list_eq_dec Z.eq_dec.

Definition wstr_eqb (a b : wstr) : bool :=
  if wstr_eq_dec a b then true else false.

(** [str.isspace] on one character: the characters [str.strip()] removes. *)
Definition py_isspace (c : wchar) : bool :=
  ((9 <=? c) && (c <=? 13)) || ((28 <=? c) && (c <=? 32))
  || (c =? 133) || (c =? 160) || (c =? 5760)
  || ((8192 <=? c) && (c <=? 8202))
  || (c =? 8232) || (c =? 8233) || (c =? 8239) || (c =? 8287)
  || (c =? 12288).

Fixpoint lstrip (s : wstr) : wstr :=
  match s with
  | [] => []
  | c :: t => if py_isspace c then lstrip t else s
  end.

Definition rstrip (s : wstr) : wstr := rev (lstrip (rev s)).

(** [s.strip()] *)
Definition strip (s : wstr) : wstr := rstrip (lstrip s).

(** ** The desktop seen by [EnumWindows] *)

(** What the OS answers for one top-level window during the enumeration.
    [EnumWindows] only passes handles of existing windows, which are not
    NULL: the handle is a [positive]. *)
Record window := mkWindow {
  hwnd : positive;
  visible : bool;        (* IsWindowVisible(hwnd) <> 0 *)
  title : wstr           (* the window text *)
}.

Definition IsWindowVisible (w : window) : bool := visible w.

(** [ctypes.create_unicode_buffer(n)]: [n] zeroed code units. *)
Definition create_unicode_buffer (n : nat) : list wchar := repeat 0 n.

(** [GetWindowTextW(hwnd, buf, nMaxCount)]: copies at most [nMaxCount - 1]
    code units of the window text and a terminating NUL. *)
Definition GetWindowTextW (w : window) (buf : list wchar) (nMaxCount : nat)
  : list wchar :=
  match nMaxCount with
  | O => buf
  | S m =>
      let copied := firstn m (title w) in
      copied ++ 0 :: skipn (S (List.length copied)) buf
  end.

(** [buf.value]: the code units before the first NUL. *)
Fixpoint buf_value (buf : list wchar) : wstr :=
  match buf with
  | [] => []
  | c :: t => if c =? 0 then [] else c :: buf_value t
  end.

(** The callback of the locator.  [result] is the list captured by the
    closure; the boolean is the callback's return value ([True]: go on). *)
Definition enum_proc (query : wstr) (w : window) (result : list Z)
  : bool * list Z :=
  if negb (IsWindowVisible w) then (true, result)
  else
    let buf := create_unicode_buffer 512 in
    let buf := GetWindowTextW w buf 512 in
    if wstr_eqb (strip (buf_value buf)) query
    then (false, result ++ [Z.pos (hwnd w)])
    else (true, result).

(** [EnumWindows(proc, 0)]: calls [proc] on each top-level window, in the
    OS's order, until it returns [False]. *)
Fixpoint EnumWindows (proc : window -> list Z -> bool * list Z)
    (desktop : list window) (result : list Z) : list Z :=
  match desktop with
  | [] => result
  | w :: rest =>
      let '(continue, result') := proc w result in
      if continue then EnumWindows proc rest result' else result'
  end.

Definition find_window_by_title_exact (desktop : list window) (query : wstr)
  : option Z :=
  let result := EnumWindows (enum_proc query) desktop [] in
  match result with
  | [] => None
  | h :: _ => Some h
  end.

(** The text the locator compares: the window text as it comes out of the
    512-unit buffer. *)
Definition window_text (w : window) : wstr :=
  buf_value (GetWindowTextW w (create_unicode_buffer 512) 512).

Definition matches (query : wstr) (w : window) : bool :=
  IsWindowVisible w && wstr_eqb (strip (window_text w)) query.

(** ** Exceptions *)

(** Subclasses of [Exception] the foreign calls can raise. *)
Inductive exn :=
| OSError (msg : string)
| ArgumentError
| RuntimeError
| OverflowError.

(** What unwinds the Python stack: an [Exception], or [SystemExit], which
    [except Exception] does not catch. *)
Inductive raised :=
| Exc (e : exn)
| SystemExit (code : Z).

(** A foreign call (ctypes or Qt) returns or raises. *)
Inductive outcome (A : Type) :=
| Returns (a : A)
| Raises (e : exn).
Arguments Returns {A} a.
Arguments Raises {A} e.

Inductive result (A : Type) :=
| Normal (a : A)
| Raised (r : raised).
Arguments Normal {A} a.
Arguments Raised {A} r.

(** Code that touches no object: the exception monad. *)
Definition ret {A} (a : A) : result A := Normal a.

Definition bind {A B} (c : result A) (k : A -> result B) : result B :=
  match c with
  | Normal a => k a
  | Raised r => Raised r
  end.

Definition raise {A} (e : exn) : result A := Raised (Exc e).

Definition call {A} (o : outcome A) : result A :=
  match o with
  | Returns a => Normal a
  | Raises e => Raised (Exc e)
  end.

(** [try: body except Exception: handler] *)
Definition try_except {A} (body : result A) (handler : exn -> result A)
  : result A :=
  match body with
  | Raised (Exc e) => handler e
  | other => other
  end.

(** Methods: the exception monad over the state of an object.  What was
    written before an exception stays written. *)
Definition M (S A : Type) : Type := S -> result A * S.

Definition retM {S A} (a : A) : M S A := fun s => (Normal a, s).

Definition bindM {S A B} (c : M S A) (k : A -> M S B) : M S B :=
  fun s =>
    match c s with
    | (Normal a, s') => k a s'
    | (Raised r, s') => (Raised r, s')
    end.

Definition lift {S A} (c : result A) : M S A := fun s => (c, s).

Definition get {S} : M S S := fun s => (Normal s, s).

Definition modify {S} (f : S -> S) : M S unit := fun s => (Normal tt, f s).

Definition try_exceptM {S A} (body : M S A) (handler : exn -> M S A)
  : M S A :=
  fun s =>
    match body s with
    | (Raised (Exc e), s') => handler e s'
    | other => other
    end.

Declare Scope py_scope.
Delimit Scope py_scope with py.
Notation "x <- c ;; k" := (bind c (fun x => k))
  (at level 61, c at next level, right associativity) : py_scope.
Notation "x <~ c ;; k" := (bindM c (fun x => k))
  (at level 61, c at next level, right associativity) : py_scope.
Notation "c ;;; k" := (bindM c (fun _ => k))
  (at level 61, right associativity) : py_scope.
Local Open Scope py_scope.

(** ** Handles on the Python side *)

(** A [c_void_p] result or callback argument: [None] for NULL. *)
Definition from_c_void_p (raw : Z) : option Z :=
  if raw =? 0 then None else Some raw.

(** A Python value passed where [HWND] is expected. *)
Definition as_HWND (v : option Z) : Z :=
  match v with
  | None => 0
  | Some h => h
  end.

(** Truth value of [None] or an [int]. *)
Definition truthy (v : option Z) : bool :=
  match v with
  | None => false
  | Some h => negb (h =? 0)
  end.

(** [a == b] on values that are [None] or an [int]. *)
Definition py_eqb (a b : option Z) : bool :=
  match a, b with
  | None, None => true
  | Some x, Some y => x =? y
  | _, _ => false
  end.

(** ** The OS queries of one tick *)

Record RECT := mkRECT {
  left : Z;
  top : Z;
  right : Z;
  bottom : Z
}.

(** What the window system answers during one tick.  [BOOL] results are
    integers, tested for being non-zero; [GetWindowRect] is [None] when the
    call returns FALSE and the rectangle it filled otherwise. *)
Record world := mkWorld {
  winId : outcome Z;
  IsIconic : Z -> outcome Z;
  GetForegroundWindow : outcome Z;
  GetWindowRect : Z -> outcome (option RECT)
}.

Definition get_window_rect (os : world) (hwnd : option Z)
  : result (Z * Z * Z * Z) :=
  r <- call (GetWindowRect os (as_HWND hwnd)) ;;
  match r with
  | None => raise (OSError "GetWindowRect failed")
  | Some rc => ret (left rc, top rc, right rc, bottom rc)
  end.

(** The body of the [try] block of [is_window_covered_or_not_foreground]. *)
Definition covered_body (os : world) (hwnd_steam : option Z)
    (hwnd_overlay : Z) : result bool :=
  if negb (truthy hwnd_steam) then ret true
  else
    iconic <- call (IsIconic os (as_HWND hwnd_steam)) ;;
    if negb (iconic =? 0) then ret true
    else
      raw <- call (GetForegroundWindow os) ;;
      let fg := from_c_void_p raw in
      if py_eqb fg hwnd_steam then ret false
      else if negb (hwnd_overlay =? 0) && py_eqb fg (Some hwnd_overlay)
      then ret false
      else ret true.

Definition is_window_covered_or_not_foreground (os : world)
    (hwnd_steam : option Z) (hwnd_overlay : Z) : result bool :=
  try_except (covered_body os hwnd_steam hwnd_overlay) (fun _ => ret true).

(** ** The overlay widget *)

(** Commands sent to the window of the overlay. *)
Inductive command :=
| Hide
| Show
| Move (x y : Z).

(** A [SteamShell] opened by a click; only its visibility is looked at. *)
Record SteamShell := mkShell {
  shell_visible : bool
}.

(** The [OverlayWindow] object: its two configuration fields, the state of
    its top-level window (what [isVisible()] and [pos()] answer), its list of
    shells and the commands it has sent so far, oldest first. *)
Record OverlayWindow := mkOverlay {
  hwnd_parent : option Z;
  rel_offset : Z * Z;
  is_visible : bool;
  position : Z * Z;
  shells : list (option SteamShell);
  issued : list command
}.

Definition isVisible : M OverlayWindow bool :=
  self <~ get ;; retM (is_visible self).

Definition hide : M OverlayWindow unit :=
  modify (fun self =>
    mkOverlay (hwnd_parent self) (rel_offset self) false (position self)
              (shells self) (issued self ++ [Hide])).

Definition show : M OverlayWindow unit :=
  modify (fun self =>
    mkOverlay (hwnd_parent self) (rel_offset self) true (position self)
              (shells self) (issued self ++ [Show])).

(** The range of a C [int], the type of the arguments of [QWidget.move]. *)
Definition in_c_int (z : Z) : bool :=
  (-2147483648 <=? z) && (z <=? 2147483647).

(** [self.move(x, y)]: the binding raises [OverflowError] for a Python
    integer that does not fit a C [int], and then nothing is sent to the
    window. *)
Definition move (x y : Z) : M OverlayWindow unit :=
  fun self =>
    if in_c_int x && in_c_int y then
      (Normal tt,
       mkOverlay (hwnd_parent self) (rel_offset self) (is_visible self) (x, y)
                 (shells self) (issued self ++ [Move x y]))
    else (Raised (Exc OverflowError), self).

Definition set_shells (l : list (option SteamShell)) : M OverlayWindow unit :=
  modify (fun self =>
    mkOverlay (hwnd_parent self) (rel_offset self) (is_visible self)
              (position self) l (issued self)).

(** [w is not None and w.isVisible()] *)
Definition shell_alive (w : option SteamShell) : bool :=
  match w with
  | None => false
  | Some s => shell_visible s
  end.

(** [a and b], where [b] is only evaluated when [a] holds. *)
Definition py_and {S} (a : bool) (b : M S bool) : M S bool :=
  if a then b else retM false.

(** Step 1 of [_tick]: the overlay's own handle, 0 when [winId] raises. *)
Definition own_handle (os : world) : M OverlayWindow Z :=
  try_exceptM (lift (call (winId os))) (fun _ => retM 0).

Definition _tick (os : world) : M OverlayWindow unit :=
  hwnd_overlay <~ own_handle os ;;
  self <~ get ;;
  covered <~ lift (is_window_covered_or_not_foreground
                     os (hwnd_parent self) hwnd_overlay) ;;
  c1 <~ py_and covered isVisible ;;
  (if c1 then hide
   else
     c2 <~ py_and (negb covered) (vis <~ isVisible ;; retM (negb vis)) ;;
     if c2 then show else retM tt) ;;;
  try_exceptM
    (self <~ get ;;
     if truthy (hwnd_parent self) then
       rc <~ lift (get_window_rect os (hwnd_parent self)) ;;
       let '(l, t, r, b) := rc in
       let '(dx, dy) := rel_offset self in
       move (r + dx) (t + dy)
     else retM tt)
    (fun _ => retM tt) ;;;
  self <~ get ;;
  match shells self with
  | [] => retM tt
  | _ :: _ => set_shells (filter shell_alive (shells self))
  end.

(** The value of [covered] in the tick run against [os]. *)
Definition covered_in_tick (os : world) (self : OverlayWindow) : result bool :=
  match own_handle os self with
  | (Normal hwnd_overlay, _) =>
      is_window_covered_or_not_foreground os (hwnd_parent self) hwnd_overlay
  | (Raised r, _) => Raised r
  end.

(** The commands a tick sends: what it appends to [issued]. *)
Definition tick_commands (os : world) (self : OverlayWindow) : list command :=
  skipn (List.length (issued self)) (issued (snd (_tick os self))).

(** The timer fires once per element of [oss]; an exception that escapes a
    slot is reported and the event loop goes on. *)
Fixpoint run_ticks (oss : list world) (self : OverlayWindow) : OverlayWindow :=
  match oss with
  | [] => self
  | os :: rest => run_ticks rest (snd (_tick os self))
  end.

Definition is_visibility_command (c : command) : bool :=
  match c with
  | Hide | Show => true
  | Move _ _ => false
  end.

Definition is_move_command (c : command) : bool :=
  match c with
  | Move _ _ => true
  | _ => false
  end.

(** ** Start-up *)

(** [format(n, "08X")]: upper-case hexadecimal, zero-padded to 8 columns,
    the sign counting as one. *)
Definition hex_digit (d : Z) : ascii :=
  if d <? 10 then ascii_of_nat (Z.to_nat (48 + d))
  else ascii_of_nat (Z.to_nat (55 + d)).

Fixpoint hex_digits (fuel : nat) (n : Z) (acc : string) : string :=
  match fuel with
  | O => acc
  | S fuel' =>
      let acc' := String (hex_digit (n mod 16)) acc in
      if n / 16 =? 0 then acc' else hex_digits fuel' (n / 16) acc'
  end.

Fixpoint pad_zeros (n : nat) (s : string) : string :=
  match n with
  | O => s
  | S n' => String "0"%char (pad_zeros n' s)
  end.

Definition format_08X (n : Z) : string :=
  let digits := hex_digits (S (Z.to_nat (Z.log2 (Z.abs n)))) (Z.abs n) "" in
  if n <? 0
  then String "-"%char (pad_zeros (7 - String.length digits) digits)
  else pad_zeros (8 - String.length digits) digits.

(** What the process does that can be seen from outside, in order. *)
Inductive event :=
| Print (line : string)
| NewQApplication
| NewOverlayWindow (image_path : string) (hwnd_parent : option Z)
                   (rel_offset : Z * Z)
| TimerStart (msec : Z)
| WinShow
| AppExec.

Definition emit (e : event) : M (list event) unit :=
  modify (fun trace => trace ++ [e]).

(** [sys.exit(code)] *)
Definition sys_exit {A} (code : Z) : M (list event) A :=
  fun trace => (Raised (SystemExit code), trace).

(** [OverlayWindow(image_path, hwnd_parent, rel_offset)]: builds the widget
    and starts its 1 ms timer, whose slot is [_tick]. *)
Definition new_OverlayWindow (image_path : string) (hwnd_parent : option Z)
    (rel_offset : Z * Z) : M (list event) unit :=
  emit (NewOverlayWindow image_path hwnd_parent rel_offset) ;;;
  emit (TimerStart 1).

(** [app.exec()] runs the event loop, in which the timer fires, and returns
    [exec_code] when the loop ends. *)
Definition app_exec (exec_code : Z) : M (list event) Z :=
  emit AppExec ;;; retM exec_code.

Definition not_found_message : string :=
  "[!] 未找到标题为 'Steam' 的窗口".

Definition found_message (hwnd_steam : Z) : string :=
  "[+] 找到 Steam 窗口句柄: 0x" ++ format_08X hwnd_steam.

Definition main (desktop : list window) (exec_code : Z)
  : M (list event) unit :=
  let hwnd_steam :=
    find_window_by_title_exact desktop (wstr_of_string "Steam") in
  (if negb (truthy hwnd_steam) then
     emit (Print not_found_message) ;;;
     sys_exit 1
   else retM tt) ;;;
  emit (Print (found_message (as_HWND hwnd_steam))) ;;;
  emit NewQApplication ;;;
  new_OverlayWindow "bg.png" hwnd_steam (-617, 7) ;;;
  emit WinShow ;;;
  code <~ app_exec exec_code ;;
  sys_exit code.

(** The process has entered the polling loop when the event loop runs. *)
Definition enters_polling_loop (trace : list event) : bool :=
  existsb (fun e => match e with AppExec => true | _ => false end) trace.

Definition creates_tracker (trace : list event) : bool :=
  existsb (fun e => match e with NewOverlayWindow _ _ _ => true | _ => false end)
          trace.

(** The commands sent while the timer fires once per element of [oss]. *)
Definition run_commands (oss : list world) (self : OverlayWindow)
  : list command :=
  skipn (List.length (issued self)) (issued (run_ticks oss self)).

(** The titles of property P1. *)
Definition Foo : wstr := wstr_of_string "Foo".
Definition Foobar : wstr := wstr_of_string "Foobar".
Definition P1_titles : list wstr :=
  [Foo; wstr_of_string "Foo "; wstr_of_string " Foo"; Foobar].

(** A string that starts with no blank. *)
Definition head_nonspace (s : wstr) : Prop :=
  match s with
  | [] => True
  | c :: _ => py_isspace c = false
  end.

(** A desktop with the titles of P1, on which the properties are run. *)
Definition P1_desktop : list window :=
  [ mkWindow 11 true Foobar;
    mkWindow 12 false Foo;
    mkWindow 13 true (wstr_of_string " Foo");
    mkWindow 14 true (wstr_of_string "Foo ");
    mkWindow 15 true Foo ].

(** The visibility command step 1 of a tick sends, given [covered] and
    what [isVisible()] answers. *)
Definition visibility_commands (covered vis : bool) : list command :=
  if covered && vis then [Hide]
  else if negb covered && negb vis then [Show]
  else [].

(** The rectangle step 2 of a tick gets hold of: none when the parent handle
    is not set or [get_window_rect] raises. *)
Definition rect_read (os : world) (self : OverlayWindow)
  : option (Z * Z * Z * Z) :=
  if truthy (hwnd_parent self) then
    match get_window_rect os (hwnd_parent self) with
    | Normal rc => Some rc
    | Raised _ => None
    end
  else None.

Definition follow (offset : Z * Z) (rc : Z * Z * Z * Z) : Z * Z :=
  let '(l, t, r, b) := rc in (r + fst offset, t + snd offset).

(** The rectangle step 2 of a tick moves the overlay by: the rectangle read,
    when the place it gives fits the arguments of [move]. *)
Definition moved_rect (os : world) (self : OverlayWindow)
  : option (Z * Z * Z * Z) :=
  match rect_read os self with
  | Some rc =>
      if in_c_int (fst (follow (rel_offset self) rc))
         && in_c_int (snd (follow (rel_offset self) rc))
      then Some rc
      else None
  | None => None
  end.

(** Worlds and an overlay on which the properties are run.  The target is
    window 100, the overlay's own window is 200. *)
Definition rect_P7 : RECT := mkRECT 100 50 300 400.

Definition world_target_front : world :=
  mkWorld (Returns 200) (fun _ => Returns 0) (Returns 100)
          (fun _ => Returns (Some rect_P7)).

Definition world_foreign_front : world :=
  mkWorld (Returns 200) (fun _ => Returns 0) (Returns 300)
          (fun _ => Returns (Some rect_P7)).


Definition world_rect_fails : world :=
  mkWorld (Returns 200) (fun _ => Returns 0) (Returns 100)
          (fun _ => Returns None).

Definition world_all_raise : world :=
  mkWorld (Raises RuntimeError) (fun _ => Raises ArgumentError)
          (Raises ArgumentError) (fun _ => Raises ArgumentError).

Definition overlay_P7 : OverlayWindow :=
  mkOverlay (Some 100) (-617, 7) false (0, 0) [] [].

(** ** The earlier overlay ([fake vac.py]): position follow only *)

(** [OverlayWindow.update_position], the timer slot of the earlier version
    of the overlay: the follow step alone. *)
Definition update_position (os : world) : M OverlayWindow unit :=
  self <~ get ;;
  if negb (truthy (hwnd_parent self)) then retM tt
  else
    try_exceptM
      (rc <~ lift (get_window_rect os (hwnd_parent self)) ;;
       let '(l, t, r, b) := rc in
       let '(dx, dy) := rel_offset self in
       let new_x := r + dx in
       let new_y := t + dy in
       move new_x new_y)
      (fun _ => retM tt).

(** ** Clicks on the overlay *)

(** [Qt.MouseButton] *)
Definition LeftButton : Z := 1.
Definition RightButton : Z := 2.

Definition append_shell (w : SteamShell) : M OverlayWindow unit :=
  self <~ get ;; set_shells (shells self ++ [Some w]).

(** [OverlayWindow.mousePressEvent]: a left click opens a new shell, shows
    it, loads the page into it and appends it to [shells]. *)
Definition mousePressEvent (button : Z) : M OverlayWindow unit :=
  if button =? LeftButton then
    let shell := mkShell true in
    append_shell shell
  else retM tt.

(** ** The look of the shell *)

Record QColor := mkQColor {
  red : Z;
  green : Z;
  blue : Z;
  alpha : Z
}.

Definition QColor_eqb (a b : QColor) : bool :=
  (red a =? red b) && (green a =? green b) && (blue a =? blue b)
  && (alpha a =? alpha b).

(** [QColor(r, g, b)]: opaque. *)
Definition rgb (r g b : Z) : QColor := mkQColor r g b 255.

Module Theme.
Definition TOP_H : Z := 2.
Definition BORDER_TOP : Z := 36.
Definition BORDER_BOTTOM : Z := 36.
Definition BORDER_LEFT : Z := 28.
Definition BORDER_RIGHT : Z := 28.
Definition CLOSE_W : Z := 46.
Definition CLOSE_H : Z := 36.
Definition CLOSE_IDLE_BG : QColor := mkQColor 0 0 0 0.
Definition CLOSE_HOVER_BG : QColor := rgb 211 47 47.
Definition CLOSE_PRESS_BG : QColor := rgb 183 28 28.
Definition CLOSE_TEXT_IDLE : QColor := rgb 230 230 230.
Definition CLOSE_TEXT_ON : QColor := rgb 255 255 255.
Definition ANIM_MS : Z := 120.
End Theme.

(** ** The close button of the shell *)

Module Button.

(** What the button asks of Qt: run the colour animation from one colour
    to another, repaint, close the window it sits in. *)
Inductive command :=
| Animate (start_value end_value : QColor)
| Update
| CloseWindow.

Record CloseButton := mkButton {
  _bg : QColor;
  _pressed : bool;
  sent : list command
}.

(** [CloseButton.__init__] *)
Definition init : CloseButton := mkButton Theme.CLOSE_IDLE_BG false [].

(** The setter of the animated property. *)
Definition setBackgroundColor (c : QColor) (self : CloseButton)
  : CloseButton :=
  if negb (QColor_eqb (_bg self) c)
  then mkButton c (_pressed self) (sent self ++ [Update])
  else self.

Definition _animate_to (color : QColor) (self : CloseButton)
  : CloseButton :=
  mkButton (_bg self) (_pressed self)
           (sent self ++ [Animate (_bg self) color]).

Definition enterEvent (self : CloseButton) : CloseButton :=
  _animate_to Theme.CLOSE_HOVER_BG self.

Definition leaveEvent (self : CloseButton) : CloseButton :=
  _animate_to Theme.CLOSE_IDLE_BG self.

Definition mousePressEvent (button : Z) (self : CloseButton)
  : CloseButton :=
  if button =? LeftButton then
    _animate_to Theme.CLOSE_PRESS_BG
      (mkButton (_bg self) true (sent self))
  else self.

(** [self.rect().contains(p)] for the fixed size of the button. *)
Definition rect_contains (p : Z * Z) : bool :=
  let '(x, y) := p in
  (0 <=? x) && (x <=? Theme.CLOSE_W - 1)
  && (0 <=? y) && (y <=? Theme.CLOSE_H - 1).

Definition close_window (self : CloseButton) : CloseButton :=
  mkButton (_bg self) (_pressed self) (sent self ++ [CloseWindow]).

Definition mouseReleaseEvent (button : Z) (p : Z * Z) (self : CloseButton)
  : CloseButton :=
  if _pressed self && (button =? LeftButton) then
    let self := mkButton (_bg self) false (sent self) in
    let inside := rect_contains p in
    if inside then
      close_window (_animate_to Theme.CLOSE_HOVER_BG self)
    else _animate_to Theme.CLOSE_IDLE_BG self
  else self.

(** The colour [paintEvent] draws the cross with. *)
Definition text_color (self : CloseButton) : QColor :=
  if alpha (_bg self) >? 0 then Theme.CLOSE_TEXT_ON
  else Theme.CLOSE_TEXT_IDLE.

(** What happens to the button: pointer events, and a frame of the
    animation setting the colour. *)
Inductive input :=
| Enter
| Leave
| Press (button : Z)
| Release (button : Z) (p : Z * Z)
| Frame (c : QColor).

Definition step (self : CloseButton) (i : input) : CloseButton :=
  match i with
  | Enter => enterEvent self
  | Leave => leaveEvent self
  | Press b => mousePressEvent b self
  | Release b p => mouseReleaseEvent b p self
  | Frame c => setBackgroundColor c self
  end.

Definition run (inputs : list input) (self : CloseButton) : CloseButton :=
  fold_left step inputs self.

Definition closes (self : CloseButton) : nat :=
  List.length (filter (fun c => match c with CloseWindow => true | _ => false end)
                      (sent self)).

Definition is_left_press (i : input) : bool :=
  match i with
  | Press b => b =? LeftButton
  | _ => false
  end.

End Button.

(** ** The shell window: border, close button placement, dragging *)

Module Shell.

Inductive event_type :=
| MouseButtonPress
| MouseMove
| MouseButtonRelease
| OtherEvent.

(** A [QEvent] as the filter reads it: points are the integer points
    [toPoint()] gives. *)
Record QEvent := mkEvent {
  type : event_type;
  button : Z;
  buttons : Z;
  ev_position : Z * Z;
  ev_globalPosition : Z * Z
}.

(** The [SteamShell] widget: where the window is, the size of its chrome
    frame, where the close button was put, the drag anchor. *)
Record Widget := mkWidget {
  window_pos : Z * Z;
  chrome_size : Z * Z;
  btn_close_pos : Z * Z;
  _drag_pt : option (Z * Z)
}.

Definition _in_border (self : Widget) (pt : Z * Z) : bool :=
  let '(x, y) := pt in
  let '(w, h) := chrome_size self in
  if x <? Theme.BORDER_LEFT then true
  else if y <? Theme.BORDER_TOP then true
  else if x >=? w - Theme.BORDER_RIGHT then true
  else if y >=? h - Theme.BORDER_BOTTOM then true
  else false.

Definition resizeEvent (self : Widget) : Widget :=
  let x := fst (chrome_size self) - Theme.CLOSE_W in
  let y := 0 in
  mkWidget (window_pos self) (chrome_size self)
           (Z.max 0 x, Z.max 0 y) (_drag_pt self).

(** The rectangle the close button covers. *)
Definition in_btn_close (self : Widget) (pt : Z * Z) : bool :=
  let '(x, y) := pt in
  let '(bx, by_) := btn_close_pos self in
  (bx <=? x) && (x <? bx + Theme.CLOSE_W)
  && (by_ <=? y) && (y <? by_ + Theme.CLOSE_H).

Definition QPoint_add (a b : Z * Z) : Z * Z :=
  (fst a + fst b, snd a + snd b).

Definition QPoint_sub (a b : Z * Z) : Z * Z :=
  (fst a - fst b, snd a - snd b).

(** What [eventFilter] answers: a boolean of its own, or what the base
    class answers. *)
Inductive answer :=
| Return (b : bool)
| Super.

Section Filter.

(** The truth value the binding gives a [QPoint]. *)
Variable QPoint_bool : Z * Z -> bool.

(** [eventFilter(obj, ev)]; [obj_is_chrome] is [obj is self.chrome] and
    [under_mouse] what [btn_close.underMouse()] answers. *)
Definition eventFilter (obj_is_chrome under_mouse : bool) (ev : QEvent)
    (self : Widget) : answer * Widget :=
  if obj_is_chrome then
    if under_mouse then (Return false, self)
    else
      match type ev with
      | MouseButtonPress =>
          if (button ev =? LeftButton) && _in_border self (ev_position ev)
          then (Return true,
                mkWidget (window_pos self) (chrome_size self)
                         (btn_close_pos self)
                         (Some (ev_globalPosition ev)))
          else (Super, self)
      | MouseMove =>
          match _drag_pt self with
          | Some drag_pt =>
              if QPoint_bool drag_pt
                 && negb (Z.land (buttons ev) LeftButton =? 0)
              then
                let delta := QPoint_sub (ev_globalPosition ev) drag_pt in
                (Return true,
                 mkWidget (QPoint_add (window_pos self) delta)
                          (chrome_size self) (btn_close_pos self)
                          (Some (ev_globalPosition ev)))
              else (Super, self)
          | None => (Super, self)
          end
      | MouseButtonRelease =>
          (Return true,
           mkWidget (window_pos self) (chrome_size self)
                    (btn_close_pos self) None)
      | OtherEvent => (Super, self)
      end
  else (Super, self).

(** The events the chrome frame gets one after the other, the pointer
    never over the close button. *)
Definition filter_all (evs : list QEvent) (self : Widget) : Widget :=
  fold_left (fun s ev => snd (eventFilter true false ev s)) evs self.

End Filter.

(** A left press on the border, and a move with the left button held:
    what starts and what continues a drag. *)
Definition starts_drag (self : Widget) (ev : QEvent) : bool :=
  match type ev with
  | MouseButtonPress =>
      (button ev =? LeftButton) && _in_border self (ev_position ev)
  | _ => false
  end.

Definition is_drag_move (ev : QEvent) : bool :=
  match type ev with
  | MouseMove => negb (Z.land (buttons ev) LeftButton =? 0)
  | _ => false
  end.

End Shell.

(** ** The measuring tool ([test.py]) *)

Module Tool.

(** The part of [ImageWindow.mouseDoubleClickEvent] that measures where
    the tool's window sits relative to the top-right corner of the target:
    [None] stands for the text printed when there is no target handle. *)
Definition measured_offset (os : world) (hwnd_steam : option Z)
  : result (option (Z * Z)) :=
  if truthy hwnd_steam then
    steam <- get_window_rect os hwnd_steam ;;
    let '(steam_l, steam_t, steam_r, steam_b) := steam in
    own <- call (winId os) ;;
    my <- get_window_rect os (Some own) ;;
    let '(my_l, my_t, my_r, my_b) := my in
    let rel_x := my_l - steam_r in
    let rel_y := my_t - steam_t in
    ret (Some (rel_x, rel_y))
  else ret None.

Inductive event :=
| Print (line : string)
| NewQApplication
| NewImageWindow (image_path : string) (hwnd_steam : option Z)
| WinShow
| AppExec.

Definition emit (e : event) : M (list event) unit :=
  modify (fun trace => trace ++ [e]).

Definition not_found_message : string :=
  "[!] 未找到标题为 'Steam' 的窗口，请先运行 Steam。".

Definition main (desktop : list window) (exec_code : Z)
  : M (list event) unit :=
  let hwnd_steam :=
    find_window_by_title_exact desktop (wstr_of_string "Steam") in
  (if negb (truthy hwnd_steam) then emit (Print not_found_message)
   else emit (Print (found_message (as_HWND hwnd_steam)))) ;;;
  emit NewQApplication ;;;
  emit (NewImageWindow "bg.png" hwnd_steam) ;;;
  emit WinShow ;;;
  emit AppExec ;;;
  fun trace => (Raised (SystemExit exec_code), trace).

End Tool.

(** ** The window of the measuring tool: dragging *)

Module Image.

(** The [ImageWindow] widget as its mouse handlers see it: where the
    (frameless) window is, the drag flag and anchor, whether it was
    closed. *)
Record ImageWindow := mkImage {
  window_pos : Z * Z;
  dragging : bool;
  drag_pos : Z * Z;
  closed : bool
}.

(** [mousePressEvent]: [g] is [event.globalPosition().toPoint()]. *)
Definition mousePressEvent (button : Z) (g : Z * Z) (self : ImageWindow)
  : ImageWindow :=
  if button =? LeftButton then
    mkImage (window_pos self) true
            (Shell.QPoint_sub g (window_pos self)) (closed self)
  else if button =? RightButton then
    mkImage (window_pos self) (dragging self) (drag_pos self) true
  else self.

Definition mouseMoveEvent (g : Z * Z) (self : ImageWindow) : ImageWindow :=
  if dragging self then
    mkImage (Shell.QPoint_sub g (drag_pos self)) (dragging self)
            (drag_pos self) (closed self)
  else self.

Definition mouseReleaseEvent (self : ImageWindow) : ImageWindow :=
  mkImage (window_pos self) false (drag_pos self) (closed self).

Inductive input :=
| Press (button : Z) (g : Z * Z)
| Move (g : Z * Z)
| Release.

Definition step (self : ImageWindow) (i : input) : ImageWindow :=
  match i with
  | Press b g => mousePressEvent b g self
  | Move g => mouseMoveEvent g self
  | Release => mouseReleaseEvent self
  end.

Definition run (inputs : list input) (self : ImageWindow) : ImageWindow :=
  fold_left step inputs self.

End Image.

(** ** Auxiliary notions of the properties *)

(** The window with its title trimmed. *)
Definition trim_title (w : window) : window :=
  mkWindow (hwnd w) (visible w) (strip (title w)).

(** A title the 512-unit buffer holds whole. *)
Definition short_title (w : window) : Prop :=
  (List.length (title w) <= 511)%nat /\ Forall (fun c => c <> 0) (title w).

(** The visibility commands of a log fit a window that is visible or not
    ([vis]) before them: a window is hidden only when shown and shown only
    when hidden. *)
Fixpoint alternating (vis : bool) (cmds : list command) : bool :=
  match cmds with
  | [] => true
  | Hide :: rest => vis && alternating false rest
  | Show :: rest => negb vis && alternating true rest
  | Move _ _ :: rest => alternating vis rest
  end.

(** Worlds and events on which the further properties are run.  The
    measuring tool's own window is 200 and sits where the overlay is put. *)
Definition world_measure : world :=
  mkWorld (Returns 200) (fun _ => Returns 0) (Returns 100)
          (fun h => if h =? 200
                    then Returns (Some (mkRECT (-317) 57 (-147) 82))
                    else Returns (Some rect_P7)).

Definition overlay_hidden_no_parent : OverlayWindow :=
  mkOverlay None (-617, 7) true (5, 5) [Some (mkShell false)] [].

Definition shell_862 : Shell.Widget :=
  Shell.mkWidget (10, 10) (862, 618) (816, 0) None.

(** A truth value for points: every point but the null point (0, 0). *)
Definition QPoint_not_null (p : Z * Z) : bool :=
  negb ((fst p =? 0) && (snd p =? 0)).

Definition press_on_border : Shell.QEvent :=
  Shell.mkEvent Shell.MouseButtonPress LeftButton LeftButton (5, 5) (100, 100).

Definition drag_moves : list Shell.QEvent :=
  [ Shell.mkEvent Shell.MouseMove 0 LeftButton (15, 25) (110, 120);
    Shell.mkEvent Shell.MouseMove 0 LeftButton (35, -5) (130, 90) ].

Definition release_event : Shell.QEvent :=
  Shell.mkEvent Shell.MouseButtonRelease LeftButton 0 (35, -5) (130, 90).


(** A world in which the target sits at the far corner of the coordinate
    space of a [RECT]. *)
Definition world_rect_max : world :=
  mkWorld (Returns 200) (fun _ => Returns 0) (Returns 100)
          (fun _ => Returns (Some (mkRECT 0 2147483647 2147483647 2147483647))).

(** What the window system answers for a handle whose window was destroyed:
    it is not minimized, its rectangle cannot be read, and it is not the
    foreground window. *)
Definition destroyed_window (os : world) (h : Z) : Prop :=
  IsIconic os h = Returns 0 /\
  GetWindowRect os h = Returns None /\
  GetForegroundWindow os <> Returns h.

(** A world in which the target 100 was destroyed and the overlay 200 is
    the foreground window. *)
Definition world_target_destroyed : world :=
  mkWorld (Returns 200) (fun _ => Returns 0) (Returns 200)
          (fun _ => Returns None).

(** * Properties *)

(** ** Trimming *)

Lemma lstrip_head_nonspace (s : wstr) : head_nonspace (lstrip s).
Proof.
  induction s as [|c t IH]; simpl; [exact I|].
  destruct (py_isspace c) eqn:E; [exact IH | exact E].
Qed.

Lemma lstrip_fixed (s : wstr) : head_nonspace s -> lstrip s = s.
Proof.
  destruct s as [|c t]; simpl; [reflexivity|].
  intros ->. reflexivity.
Qed.

Lemma lstrip_split (s : wstr) :
  exists p, s = p ++ lstrip s /\ Forall (fun c => py_isspace c = true) p.
Proof.
  induction s as [|c t (p & Hp & Hall)]; simpl.
  - exists []. split; [reflexivity | constructor].
  - destruct (py_isspace c) eqn:E.
    + exists (c :: p). split; [simpl; f_equal; exact Hp | constructor; assumption].
    + exists []. split; [reflexivity | constructor].
Qed.

(** What [lstrip] leaves of the reversal of a string that starts with no
    blank, ends with no blank. *)
Lemma lstrip_rev_last_nonspace (a : wstr) :
  head_nonspace a -> head_nonspace (rev (lstrip (rev a))).
Proof.
  intros Ha.
  destruct (lstrip_split (rev a)) as (p & Hp & _).
  remember (lstrip (rev a)) as b eqn:Hb. clear Hb.
  apply (f_equal (@rev Z)) in Hp.
  rewrite rev_involutive, rev_app_distr in Hp. subst a.
  destruct (rev b) as [|c r]; simpl in *; [exact I | exact Ha].
Qed.

Lemma strip_head_nonspace (s : wstr) : head_nonspace (strip s).
Proof.
  unfold strip, rstrip. apply lstrip_rev_last_nonspace, lstrip_head_nonspace.
Qed.

Lemma strip_idempotent (s : wstr) : strip (strip s) = strip s.
Proof.
  pose proof (strip_head_nonspace s) as Hh.
  unfold strip at 1. rewrite (lstrip_fixed _ Hh).
  unfold strip, rstrip. rewrite rev_involutive.
  rewrite (lstrip_fixed (lstrip (rev (lstrip s)))); [reflexivity|].
  apply lstrip_head_nonspace.
Qed.

(** A string that is the trimming of something is its own trimming. *)
Lemma strip_eq_fixed (s q : wstr) : strip s = q -> strip q = q.
Proof. intros <-. apply strip_idempotent. Qed.

Lemma wstr_eqb_eq (a b : wstr) : wstr_eqb a b = true <-> a = b.
Proof.
  unfold wstr_eqb. destruct (wstr_eq_dec a b); split; congruence.
Qed.

Lemma wstr_eqb_neq (a b : wstr) : wstr_eqb a b = false <-> a <> b.
Proof.
  unfold wstr_eqb. destruct (wstr_eq_dec a b); split; congruence.
Qed.

(** ** The title buffer *)

Lemma buf_value_app_nul (a r : list wchar) :
  buf_value (a ++ 0 :: r) = buf_value a.
Proof.
  induction a as [|c t IH]; simpl; [reflexivity|].
  destruct (c =? 0); [reflexivity | f_equal; exact IH].
Qed.

Lemma buf_value_nul_free (a : list wchar) :
  Forall (fun c => c <> 0) a -> buf_value a = a.
Proof.
  induction 1 as [|c t Hc _ IH]; simpl; [reflexivity|].
  apply Z.eqb_neq in Hc. rewrite Hc, IH. reflexivity.
Qed.

(** The locator sees the first 511 code units of the window text. *)
Lemma window_text_truncated (w : window) :
  window_text w = buf_value (firstn 511 (title w)).
Proof.
  unfold window_text.
  change 512%nat with (S 511).
  unfold GetWindowTextW. apply buf_value_app_nul.
Qed.

Lemma window_text_short (w : window) :
  (List.length (title w) <= 511)%nat ->
  Forall (fun c => c <> 0) (title w) ->
  window_text w = title w.
Proof.
  intros Hlen Hnul.
  rewrite window_text_truncated, firstn_all2 by exact Hlen.
  apply buf_value_nul_free, Hnul.
Qed.

(** ** The locator *)

Lemma enum_proc_matches (query : wstr) (w : window) (result : list Z) :
  enum_proc query w result =
  if matches query w then (false, result ++ [Z.pos (hwnd w)])
  else (true, result).
Proof.
  unfold enum_proc, matches, window_text, IsWindowVisible.
  destruct (visible w); simpl; [|reflexivity].
  destruct (wstr_eqb _ query); reflexivity.
Qed.

Lemma EnumWindows_enum_proc (query : wstr) (desktop : list window) :
  EnumWindows (enum_proc query) desktop [] =
  match find (matches query) desktop with
  | Some w => [Z.pos (hwnd w)]
  | None => []
  end.
Proof.
  induction desktop as [|w rest IH]; [reflexivity|].
  cbn [EnumWindows find]. rewrite enum_proc_matches.
  destruct (matches query w); [reflexivity | exact IH].
Qed.

Lemma find_window_by_title_exact_find (query : wstr) (desktop : list window) :
  find_window_by_title_exact desktop query =
  option_map (fun w => Z.pos (hwnd w)) (find (matches query) desktop).
Proof.
  unfold find_window_by_title_exact. rewrite EnumWindows_enum_proc.
  destruct (find (matches query) desktop); reflexivity.
Qed.

(** [find] returns the first element that passes the test. *)
Lemma find_first {A} (p : A -> bool) (l : list A) :
  match find p l with
  | Some x =>
      exists pre post,
        l = pre ++ x :: post /\ p x = true /\
        forall u, In u pre -> p u = false
  | None => forall u, In u l -> p u = false
  end.
Proof.
  induction l as [|a l IH]; simpl.
  - intros u [].
  - destruct (p a) eqn:E.
    + exists [], l. repeat split; [exact E | intros u []].
    + destruct (find p l) as [x|].
      * destruct IH as (pre & post & -> & Hx & Hpre).
        exists (a :: pre), post. repeat split; [exact Hx|].
        intros u [<-|Hu]; [exact E | apply Hpre, Hu].
      * intros u [<-|Hu]; [exact E | apply IH, Hu].
Qed.

Lemma matches_true (query : wstr) (w : window) :
  matches query w = true <->
  visible w = true /\ strip (window_text w) = query.
Proof.
  unfold matches, IsWindowVisible.
  rewrite andb_true_iff, wstr_eqb_eq. reflexivity.
Qed.

Lemma matches_false (query : wstr) (w : window) :
  matches query w = false <->
  visible w = false \/ strip (window_text w) <> query.
Proof.
  unfold matches, IsWindowVisible.
  rewrite andb_false_iff, wstr_eqb_neq. reflexivity.
Qed.

(** The handle the locator returns is never NULL. *)
Lemma find_window_by_title_exact_truthy (desktop : list window)
    (query : wstr) (h : Z) :
  find_window_by_title_exact desktop query = Some h -> truthy (Some h) = true.
Proof.
  rewrite find_window_by_title_exact_find.
  destruct (find (matches query) desktop) as [w|]; simpl; [|discriminate].
  intros [= <-]. reflexivity.
Qed.

(** The locator returns the first window that passes [matches]. *)
Lemma locator_first_match (desktop : list window) (query : wstr) :
  match find_window_by_title_exact desktop query with
  | Some h =>
      exists pre w post,
        desktop = pre ++ w :: post /\
        h = Z.pos (hwnd w) /\
        visible w = true /\
        strip (window_text w) = query /\
        forall u, In u pre ->
          visible u = false \/ strip (window_text u) <> query
  | None =>
      forall u, In u desktop ->
        visible u = false \/ strip (window_text u) <> query
  end.
Proof.
  rewrite find_window_by_title_exact_find.
  pose proof (find_first (matches query) desktop) as H.
  destruct (find (matches query) desktop) as [w|]; simpl.
  - destruct H as (pre & post & Hd & Hw & Hpre).
    apply matches_true in Hw. destruct Hw as [Hv Ht].
    exists pre, w, post. repeat split; try assumption.
    intros u Hu. apply matches_false, Hpre, Hu.
  - intros u Hu. apply matches_false, H, Hu.
Qed.

(** C3, as amended.  For every sequence of top-level windows and every
    query, [find_window_by_title_exact] returns the handle of the first
    window in enumeration order that is visible and whose text as read
    through the 512-unit buffer, trimmed, equals the query; windows whose
    visibility flag is false are skipped; when there is no such window it
    returns [None].  It is a total function: it raises nothing.  The text
    read is the title itself when the title has at most 511 code units. *)
Theorem find_window_first_visible_match (desktop : list window)
    (query : wstr) :
  match find_window_by_title_exact desktop query with
  | Some h =>
      exists pre w post,
        desktop = pre ++ w :: post /\
        h = Z.pos (hwnd w) /\
        visible w = true /\
        strip (window_text w) = query /\
        forall u, In u pre ->
          visible u = false \/ strip (window_text u) <> query
  | None =>
      forall u, In u desktop ->
        visible u = false \/ strip (window_text u) <> query
  end /\
  forall w,
    (List.length (title w) <= 511)%nat ->
    Forall (fun c => c <> 0) (title w) ->
    window_text w = title w.
Proof.
  split; [exact (locator_first_match desktop query)|].
  exact window_text_short.
Qed.

Lemma find_window_first_visible_match_witness :
  find_window_by_title_exact P1_desktop Foo = Some 13 /\
  window_text (mkWindow 13 true (wstr_of_string " Foo"))
  = wstr_of_string " Foo".
Proof.
  destruct (find_window_first_visible_match P1_desktop Foo) as [_ Hshort].
  split; [reflexivity|].
  apply Hshort; [simpl; lia|].
  repeat constructor; simpl; lia.
Defined.

(** C3, counterexample to the claim as stated.  A single visible window
    whose title is 512 letters [a], and the query of 511 letters [a]: no
    window has a trimmed title equal to the query, and the locator returns
    the window's handle instead of [None]. *)
Lemma find_window_long_title_counterexample :
  let w := mkWindow 1 true (repeat 97 512) in
  let query := repeat 97 511 in
  (forall u, In u [w] -> strip (title u) <> query) /\
  find_window_by_title_exact [w] query = Some 1.
Proof.
  split.
  - intros u [<-|[]] H.
    apply (f_equal (@List.length Z)) in H. vm_compute in H. discriminate.
  - vm_compute. reflexivity.
Qed.

Lemma P1_title_cases (w : window) :
  In (title w) P1_titles ->
  window_text w = title w /\
  ((strip (title w) = Foo /\ title w <> Foobar) \/ title w = Foobar).
Proof.
  intros Hin. rewrite window_text_truncated.
  unfold P1_titles in Hin. simpl in Hin.
  destruct Hin as [H|[H|[H|[H|[]]]]]; rewrite <- H;
    (split; [reflexivity|]);
    first [ right; reflexivity
          | left; split; [reflexivity | vm_compute; discriminate] ].
Qed.

Lemma strip_Foobar : strip Foobar <> Foo.
Proof. vm_compute. discriminate. Qed.

(** C4.  In a desktop whose window titles are among "Foo", "Foo ", " Foo"
    and "Foobar", locating "Foo" returns only the handle of a window whose
    trimmed title is exactly "Foo" (the first visible window titled "Foo",
    "Foo " or " Foo"); a window titled "Foobar" is never returned, and
    [None] is returned exactly when every window is hidden or titled
    "Foobar". *)
Theorem find_Foo_exact_match_only (desktop : list window) :
  (forall w, In w desktop -> In (title w) P1_titles) ->
  match find_window_by_title_exact desktop Foo with
  | Some h =>
      exists pre w post,
        desktop = pre ++ w :: post /\
        h = Z.pos (hwnd w) /\
        visible w = true /\
        strip (title w) = Foo /\
        title w <> Foobar /\
        forall u, In u pre -> visible u = false \/ title u = Foobar
  | None =>
      forall u, In u desktop -> visible u = false \/ title u = Foobar
  end.
Proof.
  intros Htitles.
  assert (Hskip : forall u, In u desktop ->
            visible u = false \/ strip (window_text u) <> Foo ->
            visible u = false \/ title u = Foobar).
  { intros u Hu [Hv|Hne]; [left; exact Hv|].
    destruct (P1_title_cases u (Htitles u Hu)) as [Htxt [[Hs _]|Hb]].
    - rewrite Htxt in Hne. contradiction.
    - right. exact Hb. }
  pose proof (locator_first_match desktop Foo) as H.
  destruct (find_window_by_title_exact desktop Foo) as [h|].
  - destruct H as (pre & w & post & Hd & Hh & Hv & Ht & Hpre).
    assert (Hw : In w desktop) by (rewrite Hd; apply in_elt).
    destruct (P1_title_cases w (Htitles w Hw)) as [Htxt Hcase].
    rewrite Htxt in Ht.
    exists pre, w, post. repeat split; try assumption.
    + destruct Hcase as [[_ Hne]|Hb]; [exact Hne|].
      rewrite Hb in Ht. exfalso. exact (strip_Foobar Ht).
    + intros u Hu. apply Hskip; [|apply Hpre, Hu].
      rewrite Hd. apply in_or_app. left. exact Hu.
  - intros u Hu. apply Hskip; [exact Hu | apply H, Hu].
Qed.

Lemma find_Foo_exact_match_only_witness :
  match find_window_by_title_exact P1_desktop Foo with
  | Some h =>
      exists pre w post,
        P1_desktop = pre ++ w :: post /\
        h = Z.pos (hwnd w) /\
        visible w = true /\
        strip (title w) = Foo /\
        title w <> Foobar /\
        forall u, In u pre -> visible u = false \/ title u = Foobar
  | None =>
      forall u, In u P1_desktop -> visible u = false \/ title u = Foobar
  end.
Proof.
  apply (find_Foo_exact_match_only P1_desktop).
  intros w Hw. unfold P1_desktop in Hw. simpl in Hw.
  destruct Hw as [<-|[<-|[<-|[<-|[<-|[]]]]]]; simpl; tauto.
Defined.

(** C10.  A query that differs from its own trimmed form (it starts or
    ends with white space) is found in no desktop: the locator trims the
    window text and never the query. *)
Theorem find_window_untrimmed_query_not_found (desktop : list window)
    (query : wstr) :
  strip query <> query ->
  find_window_by_title_exact desktop query = None.
Proof.
  intros Hq.
  pose proof (locator_first_match desktop query) as H.
  destruct (find_window_by_title_exact desktop query) as [h|];
    [|reflexivity].
  destruct H as (_ & w & _ & _ & _ & _ & Ht & _).
  exfalso. apply Hq. exact (strip_eq_fixed _ _ Ht).
Qed.

Lemma find_window_untrimmed_query_not_found_witness :
  find_window_by_title_exact P1_desktop (wstr_of_string "Foo ") = None.
Proof.
  apply (find_window_untrimmed_query_not_found P1_desktop).
  vm_compute. discriminate.
Defined.

(** ** The covered flag *)

Lemma covered_body_cases (os : world) (hwnd_steam : option Z)
    (hwnd_overlay : Z) :
  (exists b, covered_body os hwnd_steam hwnd_overlay = Normal b) \/
  (exists e, covered_body os hwnd_steam hwnd_overlay = Raised (Exc e)).
Proof.
  unfold covered_body.
  destruct (negb (truthy hwnd_steam)); [left; eexists; reflexivity|].
  destruct (IsIconic os (as_HWND hwnd_steam)) as [iconic|e]; simpl;
    [|right; eexists; reflexivity].
  destruct (negb (iconic =? 0)); [left; eexists; reflexivity|].
  destruct (GetForegroundWindow os) as [raw|e]; simpl;
    [|right; eexists; reflexivity].
  left.
  destruct (py_eqb (from_c_void_p raw) hwnd_steam);
    [eexists; reflexivity|].
  destruct (negb (hwnd_overlay =? 0) &&
            py_eqb (from_c_void_p raw) (Some hwnd_overlay));
    eexists; reflexivity.
Qed.

(** The function always returns a boolean: whatever its body raises is
    turned into [True]. *)
Lemma covered_total (os : world) (hwnd_steam : option Z) (hwnd_overlay : Z) :
  exists b,
    is_window_covered_or_not_foreground os hwnd_steam hwnd_overlay = Normal b.
Proof.
  unfold is_window_covered_or_not_foreground.
  destruct (covered_body_cases os hwnd_steam hwnd_overlay)
    as [[b ->]|[e ->]]; simpl; eexists; reflexivity.
Qed.

Lemma covered_on_exception (os : world) (hwnd_steam : option Z)
    (hwnd_overlay : Z) (r : raised) :
  covered_body os hwnd_steam hwnd_overlay = Raised r ->
  is_window_covered_or_not_foreground os hwnd_steam hwnd_overlay
  = Normal true.
Proof.
  intros H. unfold is_window_covered_or_not_foreground.
  destruct (covered_body_cases os hwnd_steam hwnd_overlay)
    as [[b Hb]|[e He]]; [congruence|].
  rewrite He. reflexivity.
Qed.

Lemma py_eqb_eq (a b : option Z) : py_eqb a b = true <-> a = b.
Proof.
  destruct a as [x|], b as [y|]; simpl; try (split; congruence).
  rewrite Z.eqb_eq. split; congruence.
Qed.


Lemma covered_absent (os : world) (hwnd_steam : option Z) (hwnd_overlay : Z) :
  truthy hwnd_steam = false ->
  is_window_covered_or_not_foreground os hwnd_steam hwnd_overlay
  = Normal true.
Proof.
  intros H. unfold is_window_covered_or_not_foreground, covered_body.
  rewrite H. reflexivity.
Qed.

Lemma covered_minimized (os : world) (hwnd_steam : option Z)
    (hwnd_overlay iconic : Z) :
  IsIconic os (as_HWND hwnd_steam) = Returns iconic -> iconic <> 0 ->
  is_window_covered_or_not_foreground os hwnd_steam hwnd_overlay
  = Normal true.
Proof.
  intros H Hne. unfold is_window_covered_or_not_foreground, covered_body.
  destruct (negb (truthy hwnd_steam)); [reflexivity|].
  rewrite H. simpl. apply Z.eqb_neq in Hne. rewrite Hne. reflexivity.
Qed.

Lemma covered_foreign_foreground (os : world) (hwnd_steam : option Z)
    (hwnd_overlay raw : Z) :
  GetForegroundWindow os = Returns raw ->
  from_c_void_p raw <> hwnd_steam ->
  from_c_void_p raw <> Some hwnd_overlay ->
  is_window_covered_or_not_foreground os hwnd_steam hwnd_overlay
  = Normal true.
Proof.
  intros Hfg Hs Ho. unfold is_window_covered_or_not_foreground, covered_body.
  destruct (negb (truthy hwnd_steam)); [reflexivity|].
  destruct (IsIconic os (as_HWND hwnd_steam)) as [iconic|e]; simpl;
    [|reflexivity].
  destruct (negb (iconic =? 0)); [reflexivity|].
  rewrite Hfg. simpl.
  destruct (py_eqb (from_c_void_p raw) hwnd_steam) eqn:E1;
    [apply py_eqb_eq in E1; contradiction|].
  destruct (py_eqb (from_c_void_p raw) (Some hwnd_overlay)) eqn:E2;
    [apply py_eqb_eq in E2; contradiction|].
  rewrite andb_false_r. reflexivity.
Qed.

Lemma covered_in_tick_eq (os : world) (self : OverlayWindow) :
  covered_in_tick os self =
  is_window_covered_or_not_foreground os (hwnd_parent self)
    (match winId os with Returns h => h | Raises _ => 0 end).
Proof.
  unfold covered_in_tick, own_handle, try_exceptM, lift, call, retM.
  destruct (winId os); reflexivity.
Qed.

(** C1, as amended.  If the target handle is absent ([None] or NULL), or
    the target is minimized, or the foreground window is neither the target
    nor the overlay, then the covered flag is true; so it is in every tick,
    whose overlay handle is the one [winId] gave (0 when it is not
    known). *)
Theorem covered_fail_safe (os : world) (hwnd_steam : option Z)
    (hwnd_overlay : Z) :
  truthy hwnd_steam = false \/
  (exists iconic,
      IsIconic os (as_HWND hwnd_steam) = Returns iconic /\ iconic <> 0) \/
  (exists raw,
      GetForegroundWindow os = Returns raw /\
      from_c_void_p raw <> hwnd_steam /\
      from_c_void_p raw <> Some hwnd_overlay) ->
  is_window_covered_or_not_foreground os hwnd_steam hwnd_overlay
  = Normal true /\
  forall self,
    hwnd_parent self = hwnd_steam ->
    fst (own_handle os self) = Normal hwnd_overlay ->
    covered_in_tick os self = Normal true.
Proof.
  intros H.
  assert (Hc : is_window_covered_or_not_foreground os hwnd_steam hwnd_overlay
               = Normal true).
  { destruct H as [H|[(iconic & Hi & Hne)|(raw & Hfg & Hs & Ho)]].
    - apply covered_absent, H.
    - eapply covered_minimized; eassumption.
    - eapply covered_foreign_foreground; eassumption. }
  split; [exact Hc|].
  intros self Hp Ho. unfold covered_in_tick.
  destruct (own_handle os self) as [[h|r] s']; simpl in Ho; [|discriminate].
  injection Ho as ->. rewrite Hp. exact Hc.
Qed.

Lemma covered_fail_safe_witness :
  is_window_covered_or_not_foreground world_foreign_front (Some 100) 200
  = Normal true /\
  forall self,
    hwnd_parent self = Some 100 ->
    fst (own_handle world_foreign_front self) = Normal 200 ->
    covered_in_tick world_foreign_front self = Normal true.
Proof.
  apply (covered_fail_safe world_foreign_front (Some 100) 200).
  right. right. exists 300.
  split; [reflexivity|]. split; vm_compute; discriminate.
Defined.

(** C1, counterexample to the claim as stated.  The target handle 100 is
    invalid, its window was destroyed, and the overlay 200 is the
    foreground window: the covered flag is false, and the tick shows the
    hidden overlay. *)
Lemma covered_destroyed_target_counterexample :
  destroyed_window world_target_destroyed 100 /\
  is_window_covered_or_not_foreground world_target_destroyed (Some 100) 200
  = Normal false /\
  covered_in_tick world_target_destroyed overlay_P7 = Normal false /\
  tick_commands world_target_destroyed overlay_P7 = [Show].
Proof.
  split; [|repeat split].
  unfold destroyed_window. repeat split. discriminate.
Qed.




(** ** One tick *)

Lemma get_window_rect_cases (os : world) (hwnd : option Z) :
  (exists rc, get_window_rect os hwnd = Normal rc) \/
  (exists e, get_window_rect os hwnd = Raised (Exc e)).
Proof.
  unfold get_window_rect.
  destruct (GetWindowRect os (as_HWND hwnd)) as [[rc|]|e]; simpl;
    [left | right | right]; eexists; reflexivity.
Qed.

(** What a tick does, in one equation: it returns normally; the overlay is
    visible exactly when it is not covered; it sits where the rectangle read
    puts it, or stays where it was; the closed shells are dropped; the
    commands sent are the visibility command, then the move. *)
Lemma tick_run (os : world) (self : OverlayWindow) :
  exists cov,
    covered_in_tick os self = Normal cov /\
    _tick os self =
    (Normal tt,
     mkOverlay (hwnd_parent self) (rel_offset self) (negb cov)
       (match moved_rect os self with
        | Some rc => follow (rel_offset self) rc
        | None => position self
        end)
       (filter shell_alive (shells self))
       (issued self ++ visibility_commands cov (is_visible self) ++
        match moved_rect os self with
        | Some rc =>
            [Move (fst (follow (rel_offset self) rc))
                  (snd (follow (rel_offset self) rc))]
        | None => []
        end)).
Proof.
  rewrite covered_in_tick_eq.
  destruct self as [hp [dx dy] vis pos sh log].
  unfold _tick, own_handle, moved_rect, rect_read, visibility_commands.
  unfold bindM, try_exceptM, lift, call, retM, get, py_and, isVisible,
    hide, show, move, set_shells, modify.
  cbn [hwnd_parent rel_offset is_visible position shells issued].
  destruct (covered_total os hp
              (match winId os with Returns h => h | Raises _ => 0 end))
    as [cov Hcov].
  exists cov. split; [exact Hcov|].
  destruct (winId os) as [h|e];
    cbn [hwnd_parent rel_offset is_visible position shells issued];
    rewrite Hcov;
    destruct cov, vis; cbn -[get_window_rect in_c_int Z.add];
    destruct (truthy hp); cbn -[get_window_rect in_c_int Z.add];
    try (destruct sh; cbn; rewrite ?app_nil_r; reflexivity);
    destruct (get_window_rect_cases os hp) as [[[[[l t] r] b] ->]|[e' ->]];
    cbn -[in_c_int Z.add];
    try destruct (in_c_int (r + dx) && in_c_int (t + dy));
    cbn -[in_c_int Z.add]; destruct sh; cbn -[in_c_int Z.add];
    rewrite ?app_nil_r, <- ?app_assoc; reflexivity.
Qed.

Lemma skipn_length_app {A} (l x : list A) : skipn (List.length l) (l ++ x) = x.
Proof. induction l as [|a l IH]; simpl; [reflexivity | exact IH]. Qed.

Lemma tick_commands_eq (os : world) (self : OverlayWindow) (cov : bool) :
  covered_in_tick os self = Normal cov ->
  tick_commands os self =
  visibility_commands cov (is_visible self) ++
  match moved_rect os self with
  | Some rc =>
      [Move (fst (follow (rel_offset self) rc))
            (snd (follow (rel_offset self) rc))]
  | None => []
  end.
Proof.
  intros Hcov. destruct (tick_run os self) as (cov' & Hcov' & Heq).
  assert (cov' = cov) by congruence. subst cov'.
  unfold tick_commands. rewrite Heq. simpl. apply skipn_length_app.
Qed.

Lemma visibility_commands_no_move (cov vis : bool) :
  filter is_move_command (visibility_commands cov vis) = [].
Proof. destruct cov, vis; reflexivity. Qed.

Lemma visibility_commands_settled (cov : bool) :
  visibility_commands cov (negb cov) = [].
Proof. destruct cov; reflexivity. Qed.

Lemma covered_in_tick_parent (os : world) (a b : OverlayWindow) :
  hwnd_parent a = hwnd_parent b ->
  covered_in_tick os a = covered_in_tick os b.
Proof. intros H. rewrite !covered_in_tick_eq, H. reflexivity. Qed.

Lemma tick_keeps_parent (os : world) (self : OverlayWindow) :
  hwnd_parent (snd (_tick os self)) = hwnd_parent self.
Proof.
  destruct (tick_run os self) as (cov & _ & ->). reflexivity.
Qed.

(** ** Runs of ticks *)

(** Once the overlay is in the state the covered flag asks for, ticks with
    that covered flag send moves only and leave the visibility alone. *)
Lemma run_ticks_settled (cov : bool) (oss : list world) :
  forall self,
    is_visible self = negb cov ->
    (forall os, In os oss -> covered_in_tick os self = Normal cov) ->
    exists moves,
      issued (run_ticks oss self) = issued self ++ moves /\
      filter is_visibility_command moves = [] /\
      is_visible (run_ticks oss self) = negb cov.
Proof.
  induction oss as [|os rest IH]; intros self Hvis Hall.
  - exists []. simpl. rewrite app_nil_r. auto.
  - simpl.
    assert (Hcov : covered_in_tick os self = Normal cov)
      by (apply Hall; left; reflexivity).
    destruct (tick_run os self) as (cov' & Hcov' & Heq).
    assert (cov' = cov) by congruence. subst cov'.
    destruct (IH (snd (_tick os self))) as (moves & Hlog & Hnone & Hv).
    + rewrite Heq. reflexivity.
    + intros os' Hin.
      rewrite (covered_in_tick_parent os' _ self (tick_keeps_parent os self)).
      apply Hall. right. exact Hin.
    + rewrite Hlog, Hv. rewrite Heq. cbn [snd issued].
      rewrite Hvis, visibility_commands_settled. cbn [app].
      eexists. split; [rewrite <- app_assoc; reflexivity|].
      split; [|reflexivity].
      rewrite filter_app, Hnone, app_nil_r.
      destruct (moved_rect os self); reflexivity.
Qed.

Lemma moved_rect_success (os : world) (self : OverlayWindow)
    (l t r b : Z) :
  truthy (hwnd_parent self) = true ->
  get_window_rect os (hwnd_parent self) = Normal (l, t, r, b) ->
  in_c_int (r + fst (rel_offset self)) = true ->
  in_c_int (t + snd (rel_offset self)) = true ->
  moved_rect os self = Some (l, t, r, b).
Proof.
  intros Ht Hr Hx Hy. unfold moved_rect, rect_read. rewrite Ht, Hr.
  cbn [follow fst snd]. rewrite Hx, Hy. reflexivity.
Qed.

Lemma moved_rect_overflow (os : world) (self : OverlayWindow)
    (l t r b : Z) :
  get_window_rect os (hwnd_parent self) = Normal (l, t, r, b) ->
  in_c_int (r + fst (rel_offset self))
  && in_c_int (t + snd (rel_offset self)) = false ->
  moved_rect os self = None.
Proof.
  intros Hr Hxy. unfold moved_rect, rect_read. rewrite Hr.
  destruct (truthy (hwnd_parent self)); [|reflexivity].
  cbn [follow fst snd]. rewrite Hxy. reflexivity.
Qed.

Lemma moved_rect_failure (os : world) (self : OverlayWindow) (r : raised) :
  get_window_rect os (hwnd_parent self) = Raised r ->
  moved_rect os self = None.
Proof.
  intros Hr. unfold moved_rect, rect_read. rewrite Hr.
  destruct (truthy (hwnd_parent self)); reflexivity.
Qed.

(** C5, as amended.  In a tick in which the rectangle (l, t, r, b) of the
    target is read, the overlay is moved to (r + dx, t + dy), where (dx, dy)
    is the configured offset, which the tick leaves as it is, whenever both
    coordinates fit a C [int]: that is then the one move command of the tick
    and the position of the overlay after it.  When a coordinate does not
    fit, no move command is sent and the overlay stays where it was.  For
    the rectangle (100, 50, 300, 400) and the offset (-617, 7) the overlay
    is moved to (-317, 57). *)
Theorem tick_follows_target (os : world) (self : OverlayWindow)
    (l t r b : Z) :
  truthy (hwnd_parent self) = true ->
  get_window_rect os (hwnd_parent self) = Normal (l, t, r, b) ->
  let self' := snd (_tick os self) in
  let x := r + fst (rel_offset self) in
  let y := t + snd (rel_offset self) in
  (in_c_int x = true -> in_c_int y = true ->
   filter is_move_command (tick_commands os self) = [Move x y] /\
   position self' = (x, y)) /\
  (in_c_int x && in_c_int y = false ->
   filter is_move_command (tick_commands os self) = [] /\
   position self' = position self) /\
  rel_offset self' = rel_offset self /\
  (rel_offset self = (-617, 7) -> (l, t, r, b) = (100, 50, 300, 400) ->
   In (Move (-317) 57) (tick_commands os self) /\
   position self' = (-317, 57)).
Proof.
  intros Ht Hr self' x y. subst self' x y.
  destruct (tick_run os self) as (cov & Hcov & Heq).
  rewrite (tick_commands_eq os self cov Hcov), Heq.
  cbn [snd position rel_offset].
  rewrite filter_app, visibility_commands_no_move. cbn [app].
  split; [|split; [|split; [reflexivity|]]].
  - intros Hx Hy.
    rewrite (moved_rect_success os self l t r b Ht Hr Hx Hy).
    cbn [follow fst snd]. split; reflexivity.
  - intros Hxy.
    rewrite (moved_rect_overflow os self l t r b Hr Hxy).
    split; reflexivity.
  - intros Hoff [= -> -> -> ->].
    rewrite (moved_rect_success os self 100 50 300 400 Ht Hr)
      by (rewrite Hoff; reflexivity).
    rewrite Hoff. cbn [follow fst snd].
    split; [|reflexivity].
    apply in_or_app. right. left. reflexivity.
Qed.

Lemma tick_follows_target_witness :
  let self' := snd (_tick world_target_front overlay_P7) in
  let x := 300 + fst (rel_offset overlay_P7) in
  let y := 50 + snd (rel_offset overlay_P7) in
  (in_c_int x = true -> in_c_int y = true ->
   filter is_move_command (tick_commands world_target_front overlay_P7)
   = [Move x y] /\
   position self' = (x, y)) /\
  (in_c_int x && in_c_int y = false ->
   filter is_move_command (tick_commands world_target_front overlay_P7)
   = [] /\
   position self' = position overlay_P7) /\
  rel_offset self' = rel_offset overlay_P7 /\
  (rel_offset overlay_P7 = (-617, 7) ->
   (100, 50, 300, 400) = (100, 50, 300, 400) ->
   In (Move (-317) 57) (tick_commands world_target_front overlay_P7) /\
   position self' = (-317, 57)).
Proof.
  apply (tick_follows_target world_target_front overlay_P7 100 50 300 400);
    reflexivity.
Defined.

(** C5, counterexample to the claim as stated.  The rectangle
    (0, 2147483647, 2147483647, 2147483647) of the target is read, the
    offset is (-617, 7): top + dy = 2147483654 does not fit a C [int], the
    tick sends no move command (only the show command) and the overlay
    stays at (0, 0). *)
Lemma tick_overflow_counterexample :
  truthy (hwnd_parent overlay_P7) = true /\
  get_window_rect world_rect_max (hwnd_parent overlay_P7)
  = Normal (0, 2147483647, 2147483647, 2147483647) /\
  rel_offset overlay_P7 = (-617, 7) /\
  tick_commands world_rect_max overlay_P7 = [Show] /\
  position (snd (_tick world_rect_max overlay_P7)) = (0, 0) /\
  (0, 0) <> (2147483647 + -617, 2147483647 + 7).
Proof.
  repeat split. discriminate.
Qed.

Lemma In_visibility_commands_Hide (cov vis : bool) :
  In Hide (visibility_commands cov vis) <-> cov = true /\ vis = true.
Proof.
  destruct cov, vis; cbn; split; intros H; try tauto;
    try (destruct H as [H|[]]; discriminate);
    destruct H; discriminate.
Qed.

Lemma In_visibility_commands_Show (cov vis : bool) :
  In Show (visibility_commands cov vis) <-> cov = false /\ vis = false.
Proof.
  destruct cov, vis; cbn; split; intros H; try tauto;
    try (destruct H as [H|[]]; discriminate);
    destruct H; discriminate.
Qed.

Lemma In_visibility_command_of_tick (os : world) (self : OverlayWindow)
    (cov : bool) (c : command) :
  covered_in_tick os self = Normal cov ->
  is_visibility_command c = true ->
  In c (tick_commands os self) <->
  In c (visibility_commands cov (is_visible self)).
Proof.
  intros Hcov Hc. rewrite (tick_commands_eq os self cov Hcov), in_app_iff.
  split; [|tauto].
  intros [H|H]; [exact H|].
  destruct (moved_rect os self); [|destruct H].
  destruct H as [<-|[]]. discriminate.
Qed.

(** C6.  In every tick a hide command is sent iff the overlay is covered
    and visible, a show command iff it is not covered and hidden, and after
    the tick the overlay is visible exactly when it is not covered; so the
    ticks that follow with the same covered flag send no visibility
    command. *)
Theorem tick_visibility_only_on_change (os : world) (self : OverlayWindow) :
  exists cov,
    covered_in_tick os self = Normal cov /\
    (In Hide (tick_commands os self) <->
     cov = true /\ is_visible self = true) /\
    (In Show (tick_commands os self) <->
     cov = false /\ is_visible self = false) /\
    is_visible (snd (_tick os self)) = negb cov /\
    forall oss,
      (forall os', In os' oss -> covered_in_tick os' self = Normal cov) ->
      filter is_visibility_command
        (run_commands oss (snd (_tick os self))) = [] /\
      is_visible (run_ticks oss (snd (_tick os self))) = negb cov.
Proof.
  destruct (tick_run os self) as (cov & Hcov & Heq).
  exists cov. split; [exact Hcov|].
  split.
  { rewrite (In_visibility_command_of_tick os self cov Hide Hcov eq_refl).
    apply In_visibility_commands_Hide. }
  split.
  { rewrite (In_visibility_command_of_tick os self cov Show Hcov eq_refl).
    apply In_visibility_commands_Show. }
  assert (Hvis : is_visible (snd (_tick os self)) = negb cov)
    by (rewrite Heq; reflexivity).
  split; [exact Hvis|].
  intros oss Hall.
  destruct (run_ticks_settled cov oss (snd (_tick os self)) Hvis)
    as (moves & Hlog & Hnone & Hv).
  - intros os' Hin.
    rewrite (covered_in_tick_parent os' _ self (tick_keeps_parent os self)).
    apply Hall, Hin.
  - split; [|exact Hv].
    unfold run_commands. rewrite Hlog, skipn_length_app. exact Hnone.
Qed.

Lemma tick_visibility_only_on_change_witness :
  exists cov,
    covered_in_tick world_target_front overlay_P7 = Normal cov /\
    (In Hide (tick_commands world_target_front overlay_P7) <->
     cov = true /\ is_visible overlay_P7 = true) /\
    (In Show (tick_commands world_target_front overlay_P7) <->
     cov = false /\ is_visible overlay_P7 = false) /\
    is_visible (snd (_tick world_target_front overlay_P7)) = negb cov /\
    forall oss,
      (forall os', In os' oss ->
                   covered_in_tick os' overlay_P7 = Normal cov) ->
      filter is_visibility_command
        (run_commands oss (snd (_tick world_target_front overlay_P7))) = [] /\
      is_visible (run_ticks oss (snd (_tick world_target_front overlay_P7)))
      = negb cov.
Proof.
  exact (tick_visibility_only_on_change world_target_front overlay_P7).
Defined.

(** C7.  In a tick in which reading the rectangle of the target fails, no
    move command is sent and the overlay keeps its position; the tick still
    returns, and the visibility is the one step 1 computed: the visibility
    command is the one the covered flag asks for and the overlay is visible
    exactly when it is not covered. *)
Theorem tick_rect_failure_decoupled (os : world) (self : OverlayWindow)
    (r : raised) :
  get_window_rect os (hwnd_parent self) = Raised r ->
  filter is_move_command (tick_commands os self) = [] /\
  position (snd (_tick os self)) = position self /\
  fst (_tick os self) = Normal tt /\
  exists cov,
    covered_in_tick os self = Normal cov /\
    tick_commands os self = visibility_commands cov (is_visible self) /\
    is_visible (snd (_tick os self)) = negb cov.
Proof.
  intros Hr.
  destruct (tick_run os self) as (cov & Hcov & Heq).
  pose proof (moved_rect_failure os self r Hr) as Hread.
  rewrite (tick_commands_eq os self cov Hcov), Heq, Hread, app_nil_r.
  split; [apply visibility_commands_no_move|].
  split; [reflexivity|]. split; [reflexivity|].
  exists cov. split; [exact Hcov|]. split; reflexivity.
Qed.

Lemma tick_rect_failure_decoupled_witness :
  filter is_move_command (tick_commands world_rect_fails overlay_P7) = [] /\
  position (snd (_tick world_rect_fails overlay_P7)) = position overlay_P7 /\
  fst (_tick world_rect_fails overlay_P7) = Normal tt /\
  exists cov,
    covered_in_tick world_rect_fails overlay_P7 = Normal cov /\
    tick_commands world_rect_fails overlay_P7
    = visibility_commands cov (is_visible overlay_P7) /\
    is_visible (snd (_tick world_rect_fails overlay_P7)) = negb cov.
Proof.
  apply (tick_rect_failure_decoupled world_rect_fails overlay_P7
           (Exc (OSError "GetWindowRect failed"))).
  reflexivity.
Defined.

Lemma covered_iconic_raises (os : world) (hwnd_steam : option Z)
    (hwnd_overlay : Z) (e : exn) :
  IsIconic os (as_HWND hwnd_steam) = Raises e ->
  is_window_covered_or_not_foreground os hwnd_steam hwnd_overlay
  = Normal true.
Proof.
  intros H. unfold is_window_covered_or_not_foreground, covered_body.
  destruct (negb (truthy hwnd_steam)); [reflexivity|].
  rewrite H. reflexivity.
Qed.

Lemma covered_foreground_raises (os : world) (hwnd_steam : option Z)
    (hwnd_overlay : Z) (e : exn) :
  GetForegroundWindow os = Raises e ->
  is_window_covered_or_not_foreground os hwnd_steam hwnd_overlay
  = Normal true.
Proof.
  intros H. unfold is_window_covered_or_not_foreground, covered_body.
  destruct (negb (truthy hwnd_steam)); [reflexivity|].
  destruct (IsIconic os (as_HWND hwnd_steam)) as [iconic|e']; simpl;
    [|reflexivity].
  destruct (negb (iconic =? 0)); [reflexivity|].
  rewrite H. reflexivity.
Qed.

(** C8.  Whatever the queries of a tick answer or raise (the overlay's own
    handle, the minimized check, the foreground window, the rectangle),
    the tick returns normally; the covered computation returns a boolean,
    and it returns true whenever its body raises, in particular when the
    minimized check or the foreground read raises. *)
Theorem tick_never_raises (os : world) (self : OverlayWindow) :
  fst (_tick os self) = Normal tt /\
  (exists cov, covered_in_tick os self = Normal cov) /\
  (forall hwnd_steam hwnd_overlay r,
      covered_body os hwnd_steam hwnd_overlay = Raised r ->
      is_window_covered_or_not_foreground os hwnd_steam hwnd_overlay
      = Normal true) /\
  (forall e,
      IsIconic os (as_HWND (hwnd_parent self)) = Raises e ->
      covered_in_tick os self = Normal true) /\
  (forall e,
      GetForegroundWindow os = Raises e ->
      covered_in_tick os self = Normal true).
Proof.
  destruct (tick_run os self) as (cov & Hcov & Heq).
  split; [rewrite Heq; reflexivity|].
  split; [exists cov; exact Hcov|].
  split; [intros hs ho r; apply covered_on_exception|].
  split; intros e He; rewrite covered_in_tick_eq.
  - eapply covered_iconic_raises, He.
  - eapply covered_foreground_raises, He.
Qed.

Lemma tick_never_raises_witness :
  fst (_tick world_all_raise overlay_P7) = Normal tt /\
  covered_body world_all_raise (Some 100) 0 = Raised (Exc ArgumentError) /\
  covered_in_tick world_all_raise overlay_P7 = Normal true.
Proof.
  destruct (tick_never_raises world_all_raise overlay_P7)
    as (Hret & _ & _ & Hiconic & _).
  split; [exact Hret|]. split; [reflexivity|].
  exact (Hiconic ArgumentError eq_refl).
Defined.

(** ** Start-up *)

(** C9.  When the start-up lookup of "Steam" finds nothing, [main] prints
    the not-found message and exits with status 1; no overlay is created
    and the event loop, in which the ticks run, is never entered.  When the
    lookup returns a handle, [main] creates the overlay on that handle with
    the offset (-617, 7), starts its timer, shows it and runs the event
    loop. *)
Theorem main_lookup_gate (desktop : list window) (exec_code : Z) :
  match find_window_by_title_exact desktop (wstr_of_string "Steam") with
  | None =>
      main desktop exec_code []
      = (Raised (SystemExit 1), [Print not_found_message]) /\
      creates_tracker (snd (main desktop exec_code [])) = false /\
      enters_polling_loop (snd (main desktop exec_code [])) = false
  | Some h =>
      main desktop exec_code []
      = (Raised (SystemExit exec_code),
         [Print (found_message h); NewQApplication;
          NewOverlayWindow "bg.png" (Some h) (-617, 7); TimerStart 1;
          WinShow; AppExec]) /\
      creates_tracker (snd (main desktop exec_code [])) = true /\
      enters_polling_loop (snd (main desktop exec_code [])) = true
  end.
Proof.
  unfold main.
  destruct (find_window_by_title_exact desktop (wstr_of_string "Steam"))
    as [h|] eqn:E.
  - rewrite (find_window_by_title_exact_truthy _ _ _ E).
    repeat split.
  - repeat split.
Qed.

(** * Further properties of the code *)

(** ** Trimming, continued *)

Lemma strip_split (s : wstr) :
  exists p q,
    s = p ++ strip s ++ q /\
    Forall (fun c => py_isspace c = true) p /\
    Forall (fun c => py_isspace c = true) q.
Proof.
  destruct (lstrip_split s) as (p & Hp & Hpall).
  destruct (lstrip_split (rev (lstrip s))) as (q & Hq & Hqall).
  exists p, (rev q). split; [|split; [exact Hpall|]].
  - unfold strip, rstrip. rewrite <- rev_app_distr, <- Hq, rev_involutive.
    exact Hp.
  - apply Forall_rev, Hqall.
Qed.

Lemma strip_length (s : wstr) : (List.length (strip s) <= List.length s)%nat.
Proof.
  destruct (strip_split s) as (p & q & Hs & _).
  rewrite Hs at 2. rewrite !length_app. lia.
Qed.

Lemma strip_Forall (P : wchar -> Prop) (s : wstr) :
  Forall P s -> Forall P (strip s).
Proof.
  intros H. destruct (strip_split s) as (p & q & Hs & _).
  rewrite Hs in H. apply Forall_app in H. destruct H as [_ H].
  apply Forall_app in H. exact (proj1 H).
Qed.

Lemma lstrip_all_space (s : wstr) :
  forallb py_isspace s = true -> lstrip s = [].
Proof.
  induction s as [|c t IH]; simpl; [reflexivity|].
  destruct (py_isspace c); simpl; [exact IH | discriminate].
Qed.

(** Trimming leaves nothing exactly of the strings made of blanks. *)
Lemma strip_nil_iff (s : wstr) :
  strip s = [] <-> forallb py_isspace s = true.
Proof.
  split.
  - intros H. destruct (strip_split s) as (p & q & Hs & Hp & Hq).
    rewrite H in Hs. simpl in Hs. rewrite Hs.
    apply forallb_forall. intros c Hc. apply in_app_or in Hc.
    rewrite Forall_forall in Hp, Hq. destruct Hc; auto.
  - intros H. unfold strip, rstrip.
    rewrite (lstrip_all_space s H). reflexivity.
Qed.

Lemma buf_value_length (a : list wchar) :
  (List.length (buf_value a) <= List.length a)%nat.
Proof.
  induction a as [|c t IH]; simpl; [lia|].
  destruct (c =? 0); simpl; lia.
Qed.

Lemma window_text_length (w : window) :
  (List.length (window_text w) <= 511)%nat.
Proof.
  rewrite window_text_truncated.
  pose proof (buf_value_length (firstn 511 (title w))) as H1.
  pose proof (firstn_le_length 511 (title w)) as H2. lia.
Qed.

(** ** The locator, continued *)



(** X2.  Hidden windows play no part: the locator answers the same on the
    desktop and on its visible windows alone. *)
Theorem find_window_ignores_hidden (desktop : list window) (query : wstr) :
  find_window_by_title_exact (filter visible desktop) query =
  find_window_by_title_exact desktop query.
Proof.
  rewrite !find_window_by_title_exact_find. f_equal.
  induction desktop as [|w rest IH]; simpl; [reflexivity|].
  unfold matches at 2. unfold IsWindowVisible.
  destruct (visible w) eqn:E; simpl.
  - unfold matches at 1. unfold IsWindowVisible. rewrite E. simpl.
    destruct (wstr_eqb (strip (window_text w)) query); [reflexivity|exact IH].
  - exact IH.
Qed.

(** X3.  The empty query is found in the first visible window whose text
    is empty or made of blanks only, and in no other. *)
Theorem find_window_empty_query (desktop : list window) :
  match find_window_by_title_exact desktop [] with
  | Some h =>
      exists pre w post,
        desktop = pre ++ w :: post /\
        h = Z.pos (hwnd w) /\
        visible w = true /\
        forallb py_isspace (window_text w) = true /\
        forall u, In u pre ->
          visible u = false \/ forallb py_isspace (window_text u) = false
  | None =>
      forall u, In u desktop ->
        visible u = false \/ forallb py_isspace (window_text u) = false
  end.
Proof.
  assert (Hno : forall u,
             visible u = false \/ strip (window_text u) <> [] ->
             visible u = false \/
             forallb py_isspace (window_text u) = false).
  { intros u [H|H]; [left; exact H | right].
    destruct (forallb py_isspace (window_text u)) eqn:E; [|reflexivity].
    exfalso. apply H, strip_nil_iff, E. }
  pose proof (locator_first_match desktop []) as H.
  destruct (find_window_by_title_exact desktop []) as [h|].
  - destruct H as (pre & w & post & Hd & Hh & Hv & Ht & Hpre).
    exists pre, w, post. repeat split; try assumption.
    + apply strip_nil_iff, Ht.
    + intros u Hu. apply Hno, Hpre, Hu.
  - intros u Hu. apply Hno, H, Hu.
Qed.

(** X4.  A query of more than 511 code units is never found, not even in
    a window whose title is that query: the buffer holds 511 code units. *)
Theorem find_window_long_query_not_found (desktop : list window)
    (query : wstr) :
  (511 < List.length query)%nat ->
  find_window_by_title_exact desktop query = None.
Proof.
  intros Hlen.
  pose proof (locator_first_match desktop query) as H.
  destruct (find_window_by_title_exact desktop query) as [h|];
    [|reflexivity].
  destruct H as (_ & w & _ & _ & _ & _ & Ht & _).
  pose proof (strip_length (window_text w)) as H1.
  pose proof (window_text_length w) as H2.
  rewrite Ht in H1. lia.
Qed.

Lemma find_window_long_query_not_found_witness :
  find_window_by_title_exact [mkWindow 1 true (repeat 97 512)]
                             (repeat 97 512) = None.
Proof.
  apply find_window_long_query_not_found.
  rewrite repeat_length. lia.
Defined.

Lemma matches_trim_title (query : wstr) (w : window) :
  short_title w -> matches query (trim_title w) = matches query w.
Proof.
  intros [Hlen Hnul]. unfold matches, IsWindowVisible.
  rewrite (window_text_short w Hlen Hnul).
  rewrite (window_text_short (trim_title w)).
  - simpl. rewrite strip_idempotent. reflexivity.
  - simpl. pose proof (strip_length (title w)). lia.
  - simpl. apply strip_Forall, Hnul.
Qed.

(** X5.  Blanks around a window title do not count: when the titles fit in
    the buffer, the locator answers the same on the desktop and on the
    desktop with every title trimmed. *)
Theorem find_window_trimmed_titles (desktop : list window) (query : wstr) :
  Forall short_title desktop ->
  find_window_by_title_exact (map trim_title desktop) query =
  find_window_by_title_exact desktop query.
Proof.
  intros Hshort. rewrite !find_window_by_title_exact_find.
  induction Hshort as [|w rest Hw _ IH]; simpl; [reflexivity|].
  rewrite (matches_trim_title query w Hw).
  destruct (matches query w); [reflexivity | exact IH].
Qed.

Lemma find_window_trimmed_titles_witness :
  find_window_by_title_exact (map trim_title P1_desktop) Foo =
  find_window_by_title_exact P1_desktop Foo.
Proof.
  apply find_window_trimmed_titles.
  unfold P1_desktop, short_title.
  repeat constructor; simpl; lia.
Defined.

(** ** Start-up, continued *)

(** X6.  [main] reaches the event loop exactly when some visible window has
    the text "Steam" up to surrounding blanks; the handle it then tracks is
    the handle of such a window, and it is never taken for a missing one by
    the truth test on it. *)
Theorem main_enters_loop_iff (desktop : list window) (exec_code : Z) :
  (enters_polling_loop (snd (main desktop exec_code [])) = true <->
   exists w, In w desktop /\ visible w = true /\
             strip (window_text w) = wstr_of_string "Steam") /\
  (forall image h offset,
      In (NewOverlayWindow image h offset) (snd (main desktop exec_code [])) ->
      exists w, In w desktop /\ h = Some (Z.pos (hwnd w)) /\
                visible w = true /\
                strip (window_text w) = wstr_of_string "Steam").
Proof.
  pose proof (locator_first_match desktop (wstr_of_string "Steam")) as H.
  unfold main.
  destruct (find_window_by_title_exact desktop (wstr_of_string "Steam"))
    as [h|] eqn:E.
  - rewrite (find_window_by_title_exact_truthy _ _ _ E).
    destruct H as (pre & w & post & Hd & Hh & Hv & Ht & _).
    assert (Hin : In w desktop) by (rewrite Hd; apply in_elt).
    split.
    + split; [intros _; exists w; auto | intros _; reflexivity].
    + intros image h' offset Hev. cbn in Hev.
      destruct Hev as [Hev|[Hev|[Hev|[Hev|[Hev|[Hev|[]]]]]]];
        try discriminate.
      injection Hev as _ <- _. exists w. subst h. auto.
  - split.
    + split; [cbn; discriminate|].
      intros (w & Hin & Hv & Ht). exfalso.
      destruct (H w Hin) as [Hv'|Ht']; [congruence | contradiction].
    + intros image h' offset Hev. cbn in Hev.
      destruct Hev as [Hev|[]]. discriminate.
Qed.

(** ** The covered flag, continued *)


(** ** One tick, continued *)

Lemma moved_rect_config (os : world) (a b : OverlayWindow) :
  hwnd_parent a = hwnd_parent b ->
  rel_offset a = rel_offset b ->
  moved_rect os a = moved_rect os b.
Proof.
  intros Hp Ho. unfold moved_rect, rect_read. rewrite Hp, Ho. reflexivity.
Qed.

Lemma filter_twice {A} (p : A -> bool) (l : list A) :
  filter p (filter p l) = filter p l.
Proof.
  induction l as [|a l IH]; simpl; [reflexivity|].
  destruct (p a) eqn:E; simpl; [rewrite E, IH; reflexivity | exact IH].
Qed.

Lemma visibility_commands_short (cov vis : bool) :
  (List.length (visibility_commands cov vis) <= 1)%nat /\
  forallb is_visibility_command (visibility_commands cov vis) = true.
Proof. destruct cov, vis; simpl; split; auto. Qed.

(** X8.  A tick sends at most one visibility command and at most one move,
    the visibility command first. *)
Theorem tick_commands_shape (os : world) (self : OverlayWindow) :
  exists vis_cmds move_cmds,
    tick_commands os self = vis_cmds ++ move_cmds /\
    (List.length vis_cmds <= 1)%nat /\
    (List.length move_cmds <= 1)%nat /\
    forallb is_visibility_command vis_cmds = true /\
    forallb is_move_command move_cmds = true.
Proof.
  destruct (tick_run os self) as (cov & Hcov & _).
  rewrite (tick_commands_eq os self cov Hcov).
  destruct (visibility_commands_short cov (is_visible self)) as [Hl Hv].
  eexists _, _. split; [reflexivity|].
  split; [exact Hl|].
  destruct (moved_rect os self); simpl; auto.
Qed.

(** X9.  In an unchanged world a second tick changes nothing about the
    overlay: visibility, position and shells stay, no visibility command is
    sent, and the only command is the move of the first tick again. *)
Theorem tick_idempotent (os : world) (self : OverlayWindow) :
  let s1 := snd (_tick os self) in
  let s2 := snd (_tick os s1) in
  is_visible s2 = is_visible s1 /\
  position s2 = position s1 /\
  shells s2 = shells s1 /\
  tick_commands os s1 = filter is_move_command (tick_commands os self).
Proof.
  intros s1 s2.
  destruct (tick_run os self) as (cov & Hcov & Heq).
  destruct (tick_run os s1) as (cov1 & Hcov1 & Heq1).
  assert (Hp : hwnd_parent s1 = hwnd_parent self)
    by apply tick_keeps_parent.
  assert (cov1 = cov).
  { rewrite (covered_in_tick_parent os s1 self Hp) in Hcov1. congruence. }
  subst cov1.
  assert (Hv1 : is_visible s1 = negb cov)
    by (unfold s1; rewrite Heq; reflexivity).
  assert (Ho1 : rel_offset s1 = rel_offset self)
    by (unfold s1; rewrite Heq; reflexivity).
  pose proof (moved_rect_config os s1 self Hp Ho1) as Hr.
  rewrite (tick_commands_eq os s1 cov Hcov1).
  rewrite (tick_commands_eq os self cov Hcov).
  rewrite filter_app, visibility_commands_no_move.
  rewrite Hv1, visibility_commands_settled, Hr, Ho1.
  unfold s2. rewrite Heq1, Hr, Ho1, Hv1. cbn [snd is_visible position shells].
  split; [reflexivity|].
  split.
  - unfold s1. rewrite Heq. cbn [snd position].
    destruct (moved_rect os self); reflexivity.
  - split.
    + unfold s1. rewrite Heq. cbn [snd shells]. apply filter_twice.
    + destruct (moved_rect os self); reflexivity.
Qed.

(** X10.  Step 3 of a tick forgets the shells that were closed and no
    other: the list of shells after the tick is the list before it without
    the shells that are not visible, in the same order, whatever the window
    system answered. *)
Theorem tick_shells_cleanup (os : world) (self : OverlayWindow) :
  shells (snd (_tick os self)) = filter shell_alive (shells self) /\
  Forall (fun w => exists s, w = Some s /\ shell_visible s = true)
         (shells (snd (_tick os self))).
Proof.
  destruct (tick_run os self) as (cov & _ & ->). cbn [snd shells].
  split; [reflexivity|].
  apply Forall_forall. intros w Hw. apply filter_In in Hw.
  destruct Hw as [_ Hw]. destruct w as [s|]; [|discriminate].
  exists s. auto.
Qed.

(** X11.  An overlay without a parent handle never asks for the rectangle
    and never moves: whatever the window system answers, the tick hides it
    if it is visible and does nothing else. *)
Theorem tick_without_parent (os : world) (self : OverlayWindow) :
  truthy (hwnd_parent self) = false ->
  tick_commands os self = (if is_visible self then [Hide] else []) /\
  is_visible (snd (_tick os self)) = false /\
  position (snd (_tick os self)) = position self.
Proof.
  intros Ht.
  destruct (tick_run os self) as (cov & Hcov & Heq).
  assert (cov = true).
  { rewrite covered_in_tick_eq, (covered_absent _ _ _ Ht) in Hcov.
    congruence. }
  subst cov.
  assert (Hr : moved_rect os self = None)
    by (unfold moved_rect, rect_read; rewrite Ht; reflexivity).
  rewrite (tick_commands_eq os self true Hcov), Heq, Hr, app_nil_r.
  cbn [snd is_visible position].
  split; [destruct (is_visible self); reflexivity|].
  split; reflexivity.
Qed.

Lemma tick_without_parent_witness :
  tick_commands world_target_front overlay_hidden_no_parent = [Hide] /\
  is_visible (snd (_tick world_target_front overlay_hidden_no_parent))
  = false /\
  position (snd (_tick world_target_front overlay_hidden_no_parent)) = (5, 5).
Proof.
  apply (tick_without_parent world_target_front overlay_hidden_no_parent).
  reflexivity.
Defined.

(** ** Runs of ticks, continued *)

Lemma tick_appends (os : world) (self : OverlayWindow) :
  issued (snd (_tick os self)) = issued self ++ tick_commands os self.
Proof.
  destruct (tick_run os self) as (cov & Hcov & Heq).
  rewrite (tick_commands_eq os self cov Hcov), Heq. reflexivity.
Qed.

Lemma tick_keeps_offset (os : world) (self : OverlayWindow) :
  rel_offset (snd (_tick os self)) = rel_offset self.
Proof.
  destruct (tick_run os self) as (cov & _ & ->). reflexivity.
Qed.

Lemma run_ticks_appends (oss : list world) :
  forall self,
    issued (run_ticks oss self) = issued self ++ run_commands oss self.
Proof.
  induction oss as [|os rest IH]; intros self.
  - unfold run_commands. simpl. rewrite skipn_all, app_nil_r. reflexivity.
  - unfold run_commands. simpl. rewrite IH, tick_appends, <- app_assoc.
    rewrite skipn_length_app. reflexivity.
Qed.

Lemma run_commands_cons (os : world) (rest : list world)
    (self : OverlayWindow) :
  run_commands (os :: rest) self =
  tick_commands os self ++ run_commands rest (snd (_tick os self)).
Proof.
  unfold run_commands at 1. simpl.
  rewrite run_ticks_appends, tick_appends, <- app_assoc.
  apply skipn_length_app.
Qed.

Lemma run_ticks_app (a b : list world) :
  forall self, run_ticks (a ++ b) self = run_ticks b (run_ticks a self).
Proof.
  induction a as [|os a IH]; intros self; simpl; [reflexivity | apply IH].
Qed.

Lemma run_ticks_keeps_config (oss : list world) :
  forall self,
    hwnd_parent (run_ticks oss self) = hwnd_parent self /\
    rel_offset (run_ticks oss self) = rel_offset self.
Proof.
  induction oss as [|os rest IH]; intros self; simpl; [auto|].
  destruct (IH (snd (_tick os self))) as [-> ->].
  split; [apply tick_keeps_parent | apply tick_keeps_offset].
Qed.

(** X12.  However long the timer runs, the overlay keeps its parent handle
    and its offset, and the log of commands only grows: what was sent stays
    as sent. *)
Theorem run_ticks_frame (oss : list world) (self : OverlayWindow) :
  hwnd_parent (run_ticks oss self) = hwnd_parent self /\
  rel_offset (run_ticks oss self) = rel_offset self /\
  issued (run_ticks oss self) = issued self ++ run_commands oss self.
Proof.
  destruct (run_ticks_keeps_config oss self) as [Hp Ho].
  split; [exact Hp|]. split; [exact Ho|]. apply run_ticks_appends.
Qed.

Lemma alternating_tick (os : world) (self : OverlayWindow) (cov : bool)
    (rest : list command) :
  covered_in_tick os self = Normal cov ->
  alternating (negb cov) rest = true ->
  alternating (is_visible self) (tick_commands os self ++ rest) = true.
Proof.
  intros Hcov Hrest.
  rewrite (tick_commands_eq os self cov Hcov), <- app_assoc.
  assert (Hmove : alternating (negb cov)
                    (match moved_rect os self with
                     | Some rc =>
                         [Move (fst (follow (rel_offset self) rc))
                               (snd (follow (rel_offset self) rc))]
                     | None => []
                     end ++ rest) = true)
    by (destruct (moved_rect os self); simpl; exact Hrest).
  destruct cov, (is_visible self); simpl in *; exact Hmove.
Qed.

(** X13.  Over any run of ticks the overlay is never hidden twice in a row
    nor shown twice in a row: the hide and show commands sent alternate,
    starting with the one that changes the visibility the overlay had. *)
Theorem run_ticks_alternate (oss : list world) (self : OverlayWindow) :
  alternating (is_visible self) (run_commands oss self) = true.
Proof.
  revert self. induction oss as [|os rest IH]; intros self.
  - unfold run_commands. simpl. rewrite skipn_all. reflexivity.
  - rewrite run_commands_cons.
    destruct (tick_run os self) as (cov & Hcov & Heq).
    apply (alternating_tick os self cov _ Hcov).
    specialize (IH (snd (_tick os self))).
    rewrite Heq in IH at 1. exact IH.
Qed.

(** X14.  After a tick the overlay is as the world of that tick wants it,
    whatever happened in the ticks before: it is visible exactly when that
    world does not cover it, and it sits where that world's rectangle puts
    it when the rectangle is read and the place fits the arguments of
    [move] (where it was, otherwise). *)
Theorem run_ticks_last_world (oss : list world) (os : world)
    (self : OverlayWindow) :
  exists cov,
    covered_in_tick os self = Normal cov /\
    is_visible (run_ticks (oss ++ [os]) self) = negb cov /\
    position (run_ticks (oss ++ [os]) self) =
    match moved_rect os self with
    | Some rc => follow (rel_offset self) rc
    | None => position (run_ticks oss self)
    end.
Proof.
  rewrite run_ticks_app. simpl.
  destruct (run_ticks_keeps_config oss self) as [Hp Ho].
  destruct (tick_run os (run_ticks oss self)) as (cov & Hcov & Heq).
  exists cov.
  rewrite (covered_in_tick_parent os _ self Hp) in Hcov.
  split; [exact Hcov|].
  rewrite Heq. cbn [snd is_visible position].
  rewrite (moved_rect_config os _ self Hp Ho), Ho.
  split; reflexivity.
Qed.

(** ** The earlier overlay *)

Lemma update_position_run (os : world) (self : OverlayWindow) :
  update_position os self =
  (Normal tt,
   mkOverlay (hwnd_parent self) (rel_offset self) (is_visible self)
     (match moved_rect os self with
      | Some rc => follow (rel_offset self) rc
      | None => position self
      end)
     (shells self)
     (issued self ++
      match moved_rect os self with
      | Some rc =>
          [Move (fst (follow (rel_offset self) rc))
                (snd (follow (rel_offset self) rc))]
      | None => []
      end)).
Proof.
  destruct self as [hp [dx dy] vis pos sh log].
  unfold update_position, moved_rect, rect_read.
  unfold bindM, try_exceptM, lift, retM, get, move, modify.
  cbn [hwnd_parent rel_offset is_visible position shells issued].
  destruct (truthy hp); cbn -[get_window_rect in_c_int Z.add];
    [|rewrite app_nil_r; reflexivity].
  destruct (get_window_rect_cases os hp) as [[[[[l t] r] b] ->]|[e ->]];
    cbn -[in_c_int Z.add];
    try destruct (in_c_int (r + dx) && in_c_int (t + dy));
    cbn -[in_c_int Z.add]; rewrite ?app_nil_r; reflexivity.
Qed.

(** X15.  [update_position] of the earlier overlay is the follow step of
    [_tick]: it never raises, puts the overlay where the tick puts it and
    sends the move the tick sends; it sends no visibility command and
    leaves visibility and shells alone. *)
Theorem update_position_is_follow_step (os : world) (self : OverlayWindow) :
  fst (update_position os self) = Normal tt /\
  position (snd (update_position os self))
  = position (snd (_tick os self)) /\
  skipn (List.length (issued self)) (issued (snd (update_position os self)))
  = filter is_move_command (tick_commands os self) /\
  is_visible (snd (update_position os self)) = is_visible self /\
  shells (snd (update_position os self)) = shells self.
Proof.
  destruct (tick_run os self) as (cov & Hcov & Heq).
  rewrite (tick_commands_eq os self cov Hcov), Heq, update_position_run.
  cbn [fst snd position issued is_visible shells].
  rewrite skipn_length_app, filter_app, visibility_commands_no_move.
  repeat split. destruct (moved_rect os self); reflexivity.
Qed.

(** ** Clicks on the overlay *)

(** X16.  A left click on the overlay opens one new shell, at the end of
    the list, and touches nothing else; any other button does nothing.
    The tick that follows keeps the new shell and drops the closed ones. *)
Theorem click_opens_shell (os : world) (self : OverlayWindow) (button : Z) :
  let clicked := snd (mousePressEvent button self) in
  fst (mousePressEvent button self) = Normal tt /\
  shells clicked =
  (if button =? LeftButton then shells self ++ [Some (mkShell true)]
   else shells self) /\
  is_visible clicked = is_visible self /\
  position clicked = position self /\
  issued clicked = issued self /\
  shells (snd (_tick os clicked)) =
  filter shell_alive (shells self) ++
  (if button =? LeftButton then [Some (mkShell true)] else []).
Proof.
  intros clicked.
  destruct (tick_run os clicked) as (cov & _ & Heq). rewrite Heq.
  subst clicked. unfold mousePressEvent.
  destruct (button =? LeftButton); cbn.
  - rewrite filter_app. cbn. repeat split.
  - rewrite app_nil_r. repeat split.
Qed.

(** ** The shell window *)

Lemma in_border_false_iff (self : Shell.Widget) (x y : Z) :
  Shell._in_border self (x, y) = false <->
  Theme.BORDER_LEFT <= x < fst (Shell.chrome_size self) - Theme.BORDER_RIGHT /\
  Theme.BORDER_TOP <= y < snd (Shell.chrome_size self) - Theme.BORDER_BOTTOM.
Proof.
  unfold Shell._in_border.
  destruct (Shell.chrome_size self) as [w h]. cbn [fst snd].
  destruct (x <? Theme.BORDER_LEFT) eqn:E1;
    [apply Z.ltb_lt in E1; split; [discriminate | lia]|].
  destruct (y <? Theme.BORDER_TOP) eqn:E2;
    [apply Z.ltb_lt in E2; split; [discriminate | lia]|].
  destruct (x >=? w - Theme.BORDER_RIGHT) eqn:E3;
    [apply Z.geb_le in E3; split; [discriminate | lia]|].
  destruct (y >=? h - Theme.BORDER_BOTTOM) eqn:E4;
    [apply Z.geb_le in E4; split; [discriminate | lia]|].
  apply Z.ltb_ge in E1, E2.
  rewrite Z.geb_leb in E3, E4. apply Z.leb_gt in E3, E4.
  split; [lia | reflexivity].
Qed.

(** X17.  The points of the chrome frame that are not border are those of
    the rectangle 28 from the left and right edges and 36 from the top and
    bottom edges; a frame at most 56 wide or 72 high is border everywhere. *)
Theorem in_border_interior (self : Shell.Widget) (x y : Z) :
  (Shell._in_border self (x, y) = false <->
   28 <= x < fst (Shell.chrome_size self) - 28 /\
   36 <= y < snd (Shell.chrome_size self) - 36) /\
  (fst (Shell.chrome_size self) <= 56 \/ snd (Shell.chrome_size self) <= 72 ->
   Shell._in_border self (x, y) = true).
Proof.
  split; [exact (in_border_false_iff self x y)|].
  intros Hsmall.
  destruct (Shell._in_border self (x, y)) eqn:E; [reflexivity|].
  apply in_border_false_iff in E.
  unfold Theme.BORDER_LEFT, Theme.BORDER_RIGHT, Theme.BORDER_TOP,
    Theme.BORDER_BOTTOM in E. lia.
Qed.

(** X18.  [resizeEvent] puts the close button at the top of the frame,
    flush with its right edge when the frame is at least 46 wide and at the
    left edge otherwise, never at a negative coordinate; every point the
    button covers is border. *)
Theorem close_button_in_border (self : Shell.Widget) :
  let resized := Shell.resizeEvent self in
  let w := fst (Shell.chrome_size self) in
  Shell.btn_close_pos resized = (Z.max 0 (w - 46), 0) /\
  (46 <= w -> fst (Shell.btn_close_pos resized) + 46 = w) /\
  (w < 46 -> Shell.btn_close_pos resized = (0, 0)) /\
  forall pt,
    Shell.in_btn_close resized pt = true ->
    Shell._in_border resized pt = true.
Proof.
  intros resized w. subst resized w.
  unfold Shell.resizeEvent. cbn [Shell.btn_close_pos fst].
  unfold Theme.CLOSE_W.
  split; [reflexivity|].
  split; [intros H; lia|].
  split; [intros H; f_equal; lia|].
  intros [x y] Hin.
  destruct (Shell._in_border _ (x, y)) eqn:E; [reflexivity|].
  apply in_border_false_iff in E. cbn [Shell.chrome_size] in E.
  unfold Shell.in_btn_close in Hin. cbn [Shell.btn_close_pos] in Hin.
  rewrite !andb_true_iff in Hin.
  destruct Hin as [[[_ _] _] Hy]. apply Z.ltb_lt in Hy.
  unfold Theme.CLOSE_H, Theme.BORDER_TOP in *. lia.
Qed.

Lemma last_cons_default {A} (l : list A) :
  forall a d, last (a :: l) d = last l a.
Proof.
  induction l as [|b l IH]; intros a d; [reflexivity|].
  change (last (a :: b :: l) d) with (last (b :: l) d).
  rewrite (IH b d), (IH b a). reflexivity.
Qed.

Lemma filter_all_drag (QPoint_bool : Z * Z -> bool)
    (moves : list Shell.QEvent) :
  forall (self : Shell.Widget) (g : Z * Z),
    Shell._drag_pt self = Some g ->
    QPoint_bool g = true ->
    Forall (fun ev => Shell.is_drag_move ev = true) moves ->
    Forall (fun ev => QPoint_bool (Shell.ev_globalPosition ev) = true) moves ->
    let g' := last (map Shell.ev_globalPosition moves) g in
    let final := Shell.filter_all QPoint_bool moves self in
    Shell.window_pos final
    = Shell.QPoint_add (Shell.window_pos self) (Shell.QPoint_sub g' g) /\
    Shell._drag_pt final = Some g' /\
    Shell.chrome_size final = Shell.chrome_size self.
Proof.
  induction moves as [|ev rest IH]; intros self g Hd Hg Hmv Htr.
  - simpl. split; [|auto].
    unfold Shell.QPoint_add, Shell.QPoint_sub.
    destruct (Shell.window_pos self) as [px py]. simpl. f_equal; lia.
  - inversion Hmv as [|? ? Hev Hmv']; subst.
    inversion Htr as [|? ? Hgev Htr']; subst.
    cbv zeta.
    change (Shell.filter_all QPoint_bool (ev :: rest) self)
      with (Shell.filter_all QPoint_bool rest
              (snd (Shell.eventFilter QPoint_bool true false ev self))).
    set (s1 := snd (Shell.eventFilter QPoint_bool true false ev self)).
    assert (Hs1 : s1 = Shell.mkWidget
                    (Shell.QPoint_add (Shell.window_pos self)
                       (Shell.QPoint_sub (Shell.ev_globalPosition ev) g))
                    (Shell.chrome_size self) (Shell.btn_close_pos self)
                    (Some (Shell.ev_globalPosition ev))).
    { unfold s1, Shell.eventFilter. unfold Shell.is_drag_move in Hev.
      destruct (Shell.type ev); try discriminate.
      rewrite Hd, Hg, Hev. reflexivity. }
    assert (Hd1 : Shell._drag_pt s1 = Some (Shell.ev_globalPosition ev))
      by (rewrite Hs1; reflexivity).
    destruct (IH s1 _ Hd1 Hgev Hmv' Htr') as (Hpos & Hdrag & Hsz).
    assert (Hlast : last (map Shell.ev_globalPosition (ev :: rest)) g
                    = last (map Shell.ev_globalPosition rest)
                           (Shell.ev_globalPosition ev))
      by apply last_cons_default.
    rewrite Hlast. split; [|split; [exact Hdrag|]].
    + rewrite Hpos, Hs1. cbn [Shell.window_pos].
      unfold Shell.QPoint_add, Shell.QPoint_sub. cbn [fst snd].
      f_equal; lia.
    + rewrite Hsz, Hs1. reflexivity.
Qed.

(** X19.  A drag follows the pointer: after a left press on the border and
    any number of moves with the left button held, the window has moved by
    exactly the way of the pointer from the press to the last move, however
    the moves went in between.  (The anchor points are to count as true for
    the binding.) *)
Theorem drag_follows_pointer (QPoint_bool : Z * Z -> bool)
    (self : Shell.Widget) (press : Shell.QEvent)
    (moves : list Shell.QEvent) :
  Shell.starts_drag self press = true ->
  QPoint_bool (Shell.ev_globalPosition press) = true ->
  Forall (fun ev => Shell.is_drag_move ev = true) moves ->
  Forall (fun ev => QPoint_bool (Shell.ev_globalPosition ev) = true) moves ->
  let g0 := Shell.ev_globalPosition press in
  let g := last (map Shell.ev_globalPosition moves) g0 in
  let final := Shell.filter_all QPoint_bool (press :: moves) self in
  Shell.window_pos final
  = Shell.QPoint_add (Shell.window_pos self) (Shell.QPoint_sub g g0) /\
  Shell._drag_pt final = Some g.
Proof.
  intros Hstart Hg0 Hmv Htr. cbv zeta.
  change (Shell.filter_all QPoint_bool (press :: moves) self)
    with (Shell.filter_all QPoint_bool moves
            (snd (Shell.eventFilter QPoint_bool true false press self))).
  set (s1 := snd (Shell.eventFilter QPoint_bool true false press self)).
  assert (Hs1 : s1 = Shell.mkWidget (Shell.window_pos self)
                       (Shell.chrome_size self) (Shell.btn_close_pos self)
                       (Some (Shell.ev_globalPosition press))).
  { unfold s1, Shell.eventFilter. unfold Shell.starts_drag in Hstart.
    destruct (Shell.type press); try discriminate.
    rewrite Hstart. reflexivity. }
  assert (Hd1 : Shell._drag_pt s1 = Some (Shell.ev_globalPosition press))
    by (rewrite Hs1; reflexivity).
  destruct (filter_all_drag QPoint_bool moves s1 _ Hd1 Hg0 Hmv Htr)
    as (Hpos & Hdrag & _).
  split; [|exact Hdrag].
  rewrite Hpos, Hs1. reflexivity.
Qed.

Lemma drag_follows_pointer_witness :
  Shell.window_pos
    (Shell.filter_all QPoint_not_null (press_on_border :: drag_moves)
                      shell_862) = (40, 0) /\
  Shell._drag_pt
    (Shell.filter_all QPoint_not_null (press_on_border :: drag_moves)
                      shell_862) = Some (130, 90).
Proof.
  apply (drag_follows_pointer QPoint_not_null shell_862 press_on_border
           drag_moves);
    try reflexivity; repeat constructor.
Defined.

Lemma filter_all_no_drag (QPoint_bool : Z * Z -> bool)
    (self : Shell.Widget) (evs : list Shell.QEvent) :
  Forall (fun ev => Shell.starts_drag self ev = false) evs ->
  forall s,
    Shell.chrome_size s = Shell.chrome_size self ->
    Shell._drag_pt s = None ->
    Shell.window_pos (Shell.filter_all QPoint_bool evs s)
    = Shell.window_pos s /\
    Shell._drag_pt (Shell.filter_all QPoint_bool evs s) = None.
Proof.
  induction 1 as [|ev rest Hev _ IH]; intros s Hsz Hd; [simpl; auto|].
  change (Shell.filter_all QPoint_bool (ev :: rest) s)
    with (Shell.filter_all QPoint_bool rest
            (snd (Shell.eventFilter QPoint_bool true false ev s))).
  assert (Hs1 : snd (Shell.eventFilter QPoint_bool true false ev s) = s).
  { destruct s as [p sz b d]. cbn in Hd, Hsz. subst d sz.
    unfold Shell.eventFilter. unfold Shell.starts_drag in Hev.
    unfold Shell._in_border in *.
    destruct (Shell.type ev); cbn; try reflexivity.
    cbn in Hev. rewrite Hev. reflexivity. }
  rewrite Hs1. apply IH; assumption.
Qed.

(** X20.  Once the button is released the window stays where it is: after
    a release, whatever events follow, the window does not move until a
    left press on the border comes. *)
Theorem release_ends_drag (QPoint_bool : Z * Z -> bool)
    (self : Shell.Widget) (release : Shell.QEvent)
    (evs : list Shell.QEvent) :
  Shell.type release = Shell.MouseButtonRelease ->
  Forall (fun ev => Shell.starts_drag self ev = false) evs ->
  Shell.window_pos (Shell.filter_all QPoint_bool (release :: evs) self)
  = Shell.window_pos self /\
  Shell._drag_pt (Shell.filter_all QPoint_bool (release :: evs) self) = None.
Proof.
  intros Hrel Hevs.
  change (Shell.filter_all QPoint_bool (release :: evs) self)
    with (Shell.filter_all QPoint_bool evs
            (snd (Shell.eventFilter QPoint_bool true false release self))).
  unfold Shell.eventFilter. rewrite Hrel. cbn [snd].
  destruct (filter_all_no_drag QPoint_bool self evs Hevs
              (Shell.mkWidget (Shell.window_pos self) (Shell.chrome_size self)
                              (Shell.btn_close_pos self) None)
              eq_refl eq_refl) as [Hpos Hdrag].
  split; [exact Hpos | exact Hdrag].
Qed.

Lemma release_ends_drag_witness :
  Shell.window_pos
    (Shell.filter_all QPoint_not_null (release_event :: drag_moves)
       (Shell.filter_all QPoint_not_null [press_on_border] shell_862))
  = (10, 10) /\
  Shell._drag_pt
    (Shell.filter_all QPoint_not_null (release_event :: drag_moves)
       (Shell.filter_all QPoint_not_null [press_on_border] shell_862))
  = None.
Proof.
  apply (release_ends_drag QPoint_not_null
           (Shell.filter_all QPoint_not_null [press_on_border] shell_862)
           release_event drag_moves);
    [reflexivity | repeat constructor].
Defined.

(** ** The close button *)

Lemma closes_sent_app (bg : QColor) (pressed : bool)
    (l : list Button.command) (c : Button.command) :
  Button.closes (Button.mkButton bg pressed (l ++ [c])) =
  (List.length
     (filter (fun c => match c with Button.CloseWindow => true | _ => false end)
             l) +
   match c with Button.CloseWindow => 1 | _ => 0 end)%nat.
Proof.
  unfold Button.closes. cbn [Button.sent].
  rewrite filter_app, length_app. destruct c; reflexivity.
Qed.

Lemma closes_sent (bg : QColor) (pressed : bool)
    (l : list Button.command) :
  Button.closes (Button.mkButton bg pressed l) =
  List.length
    (filter (fun c => match c with Button.CloseWindow => true | _ => false end)
            l).
Proof. reflexivity. Qed.

Ltac button_crunch :=
  cbn [Button._pressed Button._bg Button.sent andb];
  rewrite ?closes_sent_app, ?closes_sent;
  rewrite ?filter_app, ?length_app;
  cbn [filter List.length];
  try lia.

Lemma button_step_budget (self : Button.CloseButton) (i : Button.input) :
  (Button.closes (Button.step self i)
   + (if Button._pressed (Button.step self i) then 1 else 0)
   <= Button.closes self
      + (if Button._pressed self then 1 else 0)
      + (if Button.is_left_press i then 1 else 0))%nat.
Proof.
  destruct self as [bg pressed log].
  destruct i as [| |b|b p|c]; cbn [Button.step Button.is_left_press];
    unfold Button.enterEvent, Button.leaveEvent, Button.mousePressEvent,
      Button.mouseReleaseEvent, Button.setBackgroundColor,
      Button.close_window, Button._animate_to.
  - button_crunch.
  - button_crunch.
  - destruct (b =? LeftButton), pressed; button_crunch.
  - destruct pressed, (b =? LeftButton), (Button.rect_contains p);
      button_crunch.
  - cbn [Button._bg]. destruct (negb (QColor_eqb bg c)), pressed;
      button_crunch.
Qed.

Lemma button_run_budget (inputs : list Button.input) :
  forall self,
    (Button.closes (Button.run inputs self)
     + (if Button._pressed (Button.run inputs self) then 1 else 0)
     <= Button.closes self
        + (if Button._pressed self then 1 else 0)
        + List.length (filter Button.is_left_press inputs))%nat.
Proof.
  induction inputs as [|i rest IH]; intros self; [simpl; lia|].
  change (Button.run (i :: rest) self)
    with (Button.run rest (Button.step self i)).
  specialize (IH (Button.step self i)).
  pose proof (button_step_budget self i) as Hstep.
  cbn [filter]. destruct (Button.is_left_press i); cbn [List.length]; lia.
Qed.

(** X21.  The close button closes its window at most once per left press:
    whatever the pointer does, the number of close requests of a new button
    never exceeds the number of left presses it got.  A left press followed
    by a left release inside the button closes once; released outside, it
    closes nothing and the press is forgotten. *)
Theorem button_closes_bounded (inputs : list Button.input) :
  (Button.closes (Button.run inputs Button.init)
   <= List.length (filter Button.is_left_press inputs))%nat /\
  (forall self p,
      Button.closes
        (Button.run [Button.Press LeftButton; Button.Release LeftButton p] self)
      = (Button.closes self + (if Button.rect_contains p then 1 else 0))%nat /\
      Button._pressed
        (Button.run [Button.Press LeftButton; Button.Release LeftButton p] self)
      = false).
Proof.
  split.
  - pose proof (button_run_budget inputs Button.init) as H.
    change (Button.closes Button.init) with 0%nat in H.
    change (Button._pressed Button.init) with false in H.
    destruct (Button._pressed (Button.run inputs Button.init)); lia.
  - intros [bg pressed log] p.
    unfold Button.run. cbn [fold_left Button.step].
    unfold Button.mousePressEvent, Button.mouseReleaseEvent,
      Button.close_window, Button._animate_to.
    cbn [Z.eqb LeftButton Pos.eqb Button._pressed Button._bg Button.sent andb].
    destruct (Button.rect_contains p); button_crunch;
      split; (lia || reflexivity).
Qed.

(** ** The measuring tool *)

(** X22.  The tool measures the offset the overlay is placed with: when
    the tool's window has its top-left corner at (right + dx, top + dy) of
    the target's rectangle, the offset it computes is the overlay's
    configured (dx, dy); and that corner is where a tick puts the overlay,
    the coordinates of a corner fitting a C [int]. *)
Theorem measured_offset_round_trip (os : world) (self : OverlayWindow)
    (l t r b : Z) (own : Z) (my : RECT) :
  truthy (hwnd_parent self) = true ->
  get_window_rect os (hwnd_parent self) = Normal (l, t, r, b) ->
  winId os = Returns own ->
  GetWindowRect os own = Returns (Some my) ->
  (left my, top my)
  = (r + fst (rel_offset self), t + snd (rel_offset self)) ->
  Tool.measured_offset os (hwnd_parent self)
  = Normal (Some (rel_offset self)) /\
  (in_c_int (left my) = true -> in_c_int (top my) = true ->
   position (snd (_tick os self)) = (left my, top my)).
Proof.
  intros Ht Hr Hown Hmy Hpos.
  injection Hpos as Hl Ht'.
  split.
  - unfold Tool.measured_offset. rewrite Ht, Hr. cbn [bind].
    rewrite Hown. cbn [call bind].
    unfold get_window_rect at 1. cbn [as_HWND]. rewrite Hmy.
    cbn [call bind ret]. rewrite Hl, Ht'.
    destruct (rel_offset self) as [dx dy]. cbn [fst snd].
    unfold ret. do 3 f_equal; lia.
  - intros Hx Hy. rewrite Hl in Hx. rewrite Ht' in Hy.
    destruct (tick_run os self) as (cov & _ & Heq).
    rewrite Heq, (moved_rect_success os self l t r b Ht Hr Hx Hy).
    cbn [snd position follow]. rewrite Hl, Ht'. reflexivity.
Qed.

Lemma measured_offset_round_trip_witness :
  Tool.measured_offset world_measure (hwnd_parent overlay_P7)
  = Normal (Some (rel_offset overlay_P7)) /\
  (in_c_int (-317) = true -> in_c_int 57 = true ->
   position (snd (_tick world_measure overlay_P7)) = (-317, 57)).
Proof.
  apply (measured_offset_round_trip world_measure overlay_P7
           100 50 300 400 200 (mkRECT (-317) 57 (-147) 82));
    reflexivity.
Defined.

(** X23.  The measuring tool starts whether the target is found or not:
    its [main] always creates its window and runs the event loop, handing
    the window the locator's answer as it is ([None] when nothing was
    found); only the line it prints differs. *)
Theorem tool_main_always_runs (desktop : list window) (exec_code : Z) :
  let found :=
    find_window_by_title_exact desktop (wstr_of_string "Steam") in
  exists line,
    Tool.main desktop exec_code []
    = (Raised (SystemExit exec_code),
       [Tool.Print line; Tool.NewQApplication;
        Tool.NewImageWindow "bg.png" found; Tool.WinShow; Tool.AppExec]) /\
    (line = Tool.not_found_message <-> found = None).
Proof.
  intros found. subst found. unfold Tool.main.
  destruct (find_window_by_title_exact desktop (wstr_of_string "Steam"))
    as [h|] eqn:E.
  - rewrite (find_window_by_title_exact_truthy _ _ _ E).
    exists (found_message h). split; [reflexivity|].
    split; [|discriminate].
    unfold found_message, Tool.not_found_message. cbn [append].
    intros H. discriminate H.
  - exists Tool.not_found_message. split; [reflexivity|].
    split; reflexivity.
Qed.

(** ** Dragging the measuring tool *)

Lemma QPoint_sub_sub (g p : Z * Z) :
  Shell.QPoint_sub g (Shell.QPoint_sub g p) = p.
Proof.
  destruct g, p. unfold Shell.QPoint_sub. cbn [fst snd]. f_equal; lia.
Qed.

Lemma last_map_default {A B} (f : A -> B) (l : list A) (d : A) :
  last (map f l) (f d) = f (last l d).
Proof.
  induction l as [|a l IH]; [reflexivity|].
  cbn [map]. rewrite !last_cons_default.
  clear IH. revert a. induction l as [|b l IH]; intros a; [reflexivity|].
  cbn [map]. rewrite !last_cons_default. apply IH.
Qed.

Lemma anchored_drag (p0 g0 g : Z * Z) :
  Shell.QPoint_sub g (Shell.QPoint_sub g0 p0)
  = Shell.QPoint_add p0 (Shell.QPoint_sub g g0).
Proof.
  destruct p0, g0, g. unfold Shell.QPoint_add, Shell.QPoint_sub.
  cbn [fst snd]. f_equal; lia.
Qed.

Lemma image_run_moves (gs : list (Z * Z)) :
  forall self,
    Image.dragging self = true ->
    let final := Image.run (map Image.Move gs) self in
    Image.window_pos final
    = last (map (fun g => Shell.QPoint_sub g (Image.drag_pos self)) gs)
           (Image.window_pos self) /\
    Image.dragging final = true /\
    Image.drag_pos final = Image.drag_pos self.
Proof.
  induction gs as [|g rest IH]; intros self Hd; [simpl; auto|].
  cbv zeta.
  change (Image.run (map Image.Move (g :: rest)) self)
    with (Image.run (map Image.Move rest) (Image.mouseMoveEvent g self)).
  unfold Image.mouseMoveEvent. rewrite Hd.
  set (s1 := Image.mkImage _ _ _ _).
  destruct (IH s1 eq_refl) as (Hpos & Hdr & Hanchor).
  rewrite Hpos, Hdr, Hanchor. cbn [map]. rewrite last_cons_default.
  split; [reflexivity | split; reflexivity].
Qed.

(** X24.  The window of the tool follows the pointer: after a left press
    at [g0] and moves to [g1 ... gn], it has moved by the way of the pointer
    from the press to the last move, [gn - g0]; it stays put when no move
    came. *)
Theorem image_drag_follows_pointer (self : Image.ImageWindow)
    (g0 : Z * Z) (gs : list (Z * Z)) :
  let final :=
    Image.run (Image.Press LeftButton g0 :: map Image.Move gs) self in
  Image.window_pos final
  = Shell.QPoint_add (Image.window_pos self)
                     (Shell.QPoint_sub (last gs g0) g0) /\
  Image.dragging final = true.
Proof.
  cbv zeta.
  change (Image.run (Image.Press LeftButton g0 :: map Image.Move gs) self)
    with (Image.run (map Image.Move gs)
                    (Image.mousePressEvent LeftButton g0 self)).
  unfold Image.mousePressEvent. cbn [Z.eqb LeftButton Pos.eqb].
  set (s1 := Image.mkImage _ _ _ _).
  destruct (image_run_moves gs s1 eq_refl) as (Hpos & Hdr & _).
  split; [|exact Hdr].
  rewrite Hpos. subst s1. cbn [Image.window_pos Image.drag_pos].
  pose proof (last_map_default
                (fun g => Shell.QPoint_sub g
                            (Shell.QPoint_sub g0 (Image.window_pos self)))
                gs g0) as Hl.
  cbv beta in Hl. rewrite QPoint_sub_sub in Hl. rewrite Hl.
  apply anchored_drag.
Qed.


